(** * faast-portfolio: swundle orchestration, UTXO selection, nonce chaining

    A shallow embedding of the transaction-orchestration core of the
    portfolio application:

    - [Bitcore]   : [sortUtxos] and [buildPaymentTx] of src/services/Bitcore.ts;
    - [Ethereum]  : [_createTransaction] of the Ethereum wallet;
    - [SwapStatus]: [getSwapStatus] and [getSwapFriendlyError];
    - [Swundle]   : the thunks of src/app/actions/swundle.js;
    - [BitcoreService], [EthereumWallet], [SwapList], [SwundleLifecycle] :
      [getBitcore], the balances and validation of the Ethereum wallet,
      [statusAllSwaps], [createSwundle] and [dismissLatestSwundle].

    JavaScript numbers that hold satoshi amounts, confirmations and nonces are
    integers ([Z], [N]); BigNumber amounts are exact rationals ([Qc]);
    promise chains are computations over the dispatched-action log that either
    resolve or reject. *)

From Stdlib Require Import ZArith NArith QArith Qcanon Qround String Ascii List Lia Bool
  Sorted Permutation.
From stdpp Require Import base option list gmap strings.
Import ListNotations.

Local Open Scope Z_scope.

(** ** Results of code that may throw *)

Inductive Result (E A : Type) : Type :=
| Ok (a : A)
| Err (e : E).
Arguments Ok {E A} a.
Arguments Err {E A} e.

Definition isErr {E A} (r : Result E A) : bool :=
  match r with Ok _ => false | Err _ => true end.

(** ** Bitcore.ts: input selection and payment transactions *)

Module Bitcore.

Record UtxoInfo : Type := mkUtxo {
  value : Z;
  confirmations : Z;
  transactionHash : string;
  index : nat;
  addressPath : list nat
}.

Record TxOutput : Type := mkOutput {
  address : string;
  amount : Z
}.

Record AccountInfo : Type := mkAccount {
  utxos : list UtxoInfo;
  changeIndex : nat;
  changeAddresses : list string
}.

(** What [outputBuilder.addOutput] has been given.  The builder is
    bitcoinjs-lib's; its own checks of address syntax and the hex encoding
    ([buildIncomplete().toHex().slice(10, -8)]) are not part of this
    repository, so [outputScript] is kept as the list of outputs handed to the
    builder.  [scriptAddress] is [None] when [changeAddresses[changeIndex]] is
    undefined. *)
Record ScriptOutput : Type := mkScriptOutput {
  scriptAddress : option string;
  scriptAmount : Z
}.

Record PaymentTx : Type := mkPaymentTx {
  inputUtxos : list UtxoInfo;
  outputs : list TxOutput;
  outputScript : list ScriptOutput;
  fee : Z;
  change : Z;
  changePath : option (list nat);
  changeAddress : option string;
  isSegwit : bool
}.

Inductive BuildError : Type :=
| FirstOutputBelowDust   (* 'First output minus fee is below dust threshold' *)
| NotEnoughUtxos         (* 'You do not have enough UTXOs to send ...' *)
| NoFirstOutput.         (* TypeError: outputs[0] is undefined *)

(** [Array.prototype.sort] with a comparator [cmp]: the stable sort, written
    as an insertion sort ([a] goes before [b] unless [cmp a b > 0]). *)
Fixpoint insertBy (cmp : UtxoInfo -> UtxoInfo -> Z) (x : UtxoInfo)
    (l : list UtxoInfo) : list UtxoInfo :=
  match l with
  | [] => [x]
  | y :: l' => if cmp x y <=? 0 then x :: y :: l' else y :: insertBy cmp x l'
  end.

Definition sortBy (cmp : UtxoInfo -> UtxoInfo -> Z) (l : list UtxoInfo) : list UtxoInfo :=
  fold_right (insertBy cmp) [] l.

Definition sortUtxos (utxoList : list UtxoInfo) : list UtxoInfo :=
  let matureList := List.filter (fun utxo => confirmations utxo >=? 6) utxoList in
  let immatureList := List.filter (fun utxo => negb (confirmations utxo >=? 6)) utxoList in
  sortBy (fun a b => value a - value b) matureList
    ++ sortBy (fun a b => confirmations b - confirmations a) immatureList.

Definition sumAmounts (outs : list TxOutput) : Z :=
  fold_left (fun total o => total + amount o) outs 0.

Definition sumValues (ins : list UtxoInfo) : Z :=
  fold_left (fun total u => total + value u) ins 0.

(** The loop variables of the input selection. *)
Record Selection : Type := mkSelection {
  selFee : Z;
  selAmountWithFee : Z;
  selInputUtxos : list UtxoInfo;
  selInputTotal : Z
}.

(** The loop keeps [inputTotal] equal to the value of the inputs pushed so
    far, and [amountWithFee] equal to [outputTotal + fee]. *)
Definition selectionConsistent (outputTotal : Z) (st : Selection) : Prop :=
  selInputTotal st = sumValues (selInputUtxos st)
  /\ selAmountWithFee st = outputTotal + selFee st.

(** [outputs[0].amount -= fee] *)
Definition subtractFromFirst (outs : list TxOutput) (fee : Z) : option (list TxOutput) :=
  match outs with
  | [] => None
  | o :: rest => Some (mkOutput (address o) (amount o - fee) :: rest)
  end.

Definition firstAmount (outs : list TxOutput) : option Z :=
  match outs with
  | [] => None
  | o :: _ => Some (amount o)
  end.

(** The variables after the insufficient-funds block. *)
Record Adjusted : Type := mkAdjusted {
  adjOutputs : list TxOutput;
  adjOutputTotal : Z;
  adjAmountWithFee : Z
}.

Section Build.

(** [estimateTxFee(feeRate, inputCount, outputCount, isSegwit)] of
    Utilities/bitcoin. *)
Variable estimateTxFee : Z -> nat -> nat -> bool -> Z.

(** [for (const utxo of sortedUtxos) { ... if (inputTotal >= amountWithFee) break }] *)
Fixpoint selectInputs (feeRate : Z) (outputCount : nat) (outputTotal : Z)
    (segwit : bool) (sortedUtxos : list UtxoInfo) (st : Selection) : Selection :=
  match sortedUtxos with
  | [] => st
  | utxo :: rest =>
      let fee := estimateTxFee feeRate (length (selInputUtxos st) + 1) outputCount segwit in
      let amountWithFee := outputTotal + fee in
      let inputTotal := selInputTotal st + value utxo in
      let st' := mkSelection fee amountWithFee (selInputUtxos st ++ [utxo]) inputTotal in
      if inputTotal >=? amountWithFee then st'
      else selectInputs feeRate outputCount outputTotal segwit rest st'
  end.

Definition selection (account : AccountInfo) (outputCount : nat) (outputTotal : Z)
    (feeRate : Z) (segwit : bool) : Selection :=
  selectInputs feeRate outputCount outputTotal segwit
    (sortUtxos (utxos account)) (mkSelection 0 (outputTotal + 0) [] 0).

(** [if (amountWithFee > inputTotal) { ... }] *)
Definition adjustForFee (sel : Selection) (outs : list TxOutput) (outputTotal : Z)
    (dustThreshold : Z) : Result BuildError Adjusted :=
  if selAmountWithFee sel >? selInputTotal sel then
    if outputTotal =? selInputTotal sel then
      match subtractFromFirst outs (selFee sel) with
      | None => Err NoFirstOutput
      | Some outs' =>
          match firstAmount outs' with
          | Some a0 =>
              if a0 <=? dustThreshold then Err FirstOutputBelowDust
              else Ok (mkAdjusted outs' (outputTotal - selFee sel) outputTotal)
          | None => Err NoFirstOutput
          end
      end
    else Err NotEnoughUtxos
  else Ok (mkAdjusted outs outputTotal (selAmountWithFee sel)).

Definition toScript (o : TxOutput) : ScriptOutput :=
  mkScriptOutput (Some (address o)) (amount o).

Definition buildPaymentTx (account : AccountInfo) (desiredOutputs : list TxOutput)
    (feeRate : Z) (segwit : bool) (dustThreshold : Z) : Result BuildError PaymentTx :=
  let changeAddress := nth_error (changeAddresses account) (changeIndex account) in
  let outs := List.map (fun o => mkOutput (address o) (amount o)) desiredOutputs in
  let outputTotal := sumAmounts outs in
  let outputCount := (length outs + 1)%nat in
  let sel := selection account outputCount outputTotal feeRate segwit in
  match adjustForFee sel outs outputTotal dustThreshold with
  | Err e => Err e
  | Ok adj =>
      let built := List.map toScript (adjOutputs adj) in
      let change := selInputTotal sel - adjAmountWithFee adj in
      let changePath := [1%nat; changeIndex account] in
      if change >? dustThreshold then
        Ok (mkPaymentTx (selInputUtxos sel) (adjOutputs adj)
              (built ++ [mkScriptOutput changeAddress change])
              (selFee sel) change (Some changePath) changeAddress segwit)
      else
        Ok (mkPaymentTx (selInputUtxos sel) (adjOutputs adj) built
              (selFee sel + change) 0 None None segwit)
  end.

End Build.

(** A fee estimate by transaction size, used to run the selector on concrete
    inputs: 10 bytes of overhead, 148 per input, 34 per output. *)
Definition sizeFee (feeRate : Z) (inputCount outputCount : nat) (segwit : bool) : Z :=
  feeRate * (10 + 148 * Z.of_nat inputCount + 34 * Z.of_nat outputCount).

End Bitcore.

(** ** Values shared by the swap selectors and the swundle actions *)

Module Data.

(** A BigNumber: an exact decimal, hence a rational.  NaN and the infinities
    are not represented. *)
Abbreviation BigNumber := Qc (only parsing).

Definition ZERO : BigNumber := 0%Qc.
Definition plus (a b : BigNumber) : BigNumber := (a + b)%Qc.
Definition minus (a b : BigNumber) : BigNumber := (a - b)%Qc.
Definition isNegative (a : BigNumber) : bool := (Qnum (this a) <? 0)%Z.
Definition lessThanOrEqualTo (a b : BigNumber) : bool :=
  (Qnum (this a) * Zpos (Qden (this b)) <=? Qnum (this b) * Zpos (Qden (this a)))%Z.

(** The JavaScript values an [error]-like property holds: nothing
    (undefined or null), a string, or some other object. *)
Inductive JsValue : Type :=
| Undefined
| Str (s : string)
| Obj.

Definition truthy (v : JsValue) : bool :=
  match v with
  | Undefined => false
  | Str EmptyString => false
  | Str _ => true
  | Obj => true
  end.

Definition isString (v : JsValue) : bool :=
  match v with Str _ => true | _ => false end.

(** [String.prototype.toLowerCase] on ASCII text. *)
Definition lowerAscii (c : ascii) : ascii :=
  let n := nat_of_ascii c in
  if ((65 <=? n) && (n <=? 90))%nat then ascii_of_nat (n + 32) else c.

Fixpoint toLowerCase (s : string) : string :=
  match s with
  | EmptyString => EmptyString
  | String c s' => String (lowerAscii c) (toLowerCase s')
  end.

(** [hay.includes(needle)] *)
Fixpoint includes (needle hay : string) : bool :=
  if String.prefix needle hay then true
  else match hay with
       | EmptyString => false
       | String _ hay' => includes needle hay'
       end.

(** The [txData] of an Ethereum transaction.  [nonce], [gas] and [gasPrice]
    are kept as numbers: [toHex] on the way in and [toNumber] on the way out
    cancel. *)
Record TxData : Type := mkTxData {
  chainId : N;
  from : string;
  value : Z;
  data : string;
  to : string;
  gasPrice : N;
  gas : N;
  nonce : N
}.

Record TxOutput : Type := mkTxOutput {
  address : string;
  amount : BigNumber
}.

Record Tx : Type := mkTx {
  txId : JsValue;
  txAmount : BigNumber;
  feeAmount : option BigNumber;
  feeSymbol : string;
  txOutputs : list TxOutput;
  txData : option TxData;
  txError : JsValue;
  receipt : bool;
  sendingError : JsValue;
  sending : bool;
  sent : bool;
  signingError : JsValue;
  signing : bool;
  signed : bool;
  signingSupported : bool
}.

Record Order : Type := mkOrder {
  deposit : string;
  status : string;
  orderError : JsValue;
  created : N            (* 0 when absent: [order.created || Date.now()] *)
}.

Record Swap : Type := mkSwap {
  swapId : option string;
  sendWalletId : string;
  sendSymbol : string;
  sendUnits : BigNumber;
  receiveWalletId : option string;
  receiveSymbol : string;
  receiveAddress : string;
  rate : option BigNumber;
  order : option Order;
  tx : option Tx;
  swapError : JsValue;
  errorType : JsValue
}.

(** What a promise rejects with or a [throw] raises: an [Error] object with
    its [message], or a bare string (as in [Promise.reject('failed to ...')]). *)
Inductive Thrown : Type :=
| ErrorObj (message : string)
| Rejection (reason : string).

Record Asset : Type := mkAsset {
  symbol : string;
  ERC20 : bool;
  contractAddress : string;
  decimals : N
}.

Record Swundle : Type := mkSwundle {
  swundleId : string;
  createdDate : N;
  swaps : list Swap;
  dismissed : bool
}.

End Data.

(** ** Utilities/swap: status derivation *)

Module SwapStatus.

Import Data.

Record Status : Type := mkStatus {
  code : string;
  label : string;
  labelClass : string;
  detailsCode : string;
  details : JsValue
}.

Definition createStatus (code label labelClass : string) (detailsCode : string)
    (details : JsValue) : Status :=
  mkStatus code label labelClass detailsCode details.

Definition statusPending := createStatus "pending" "Processing" "text-primary".
Definition statusFailed := createStatus "failed" "Failed" "text-warning".
Definition statusComplete := createStatus "complete" "Complete" "text-success".

Definition getSwapFriendlyError (swap : Swap) : JsValue :=
  let error := swapError swap in
  if negb (truthy error) then error
  else
    match error with
    | Str e =>
        match errorType swap with
        | Str t =>
            if String.eqb t "pollTransactionReceipt" then Str "Failed to check deposit txn status"
            else if String.eqb t "sendTransaction" then Str "Error sending deposit txn"
            else error
        | _ => Str "Unknown error"
        end
    | _ => Str "Unknown error"
    end.

Definition getSwapStatus (swap : Swap) : Status :=
  let error := swapError swap in
  if truthy error then
    match error with
    | Str e =>
        if includes "insufficient funds" (toLowerCase e)
        then statusFailed "insufficient_funds" (Str "insufficient funds")
        else statusFailed "error" (getSwapFriendlyError swap)
    | _ => statusFailed "error" (getSwapFriendlyError swap)
    end
  else
    match order swap with
    | None => statusPending "creating_order" (Str "creating swap order")
    | Some order =>
        if truthy (orderError order) then
          statusFailed "order_error"
            (if isString (orderError order) then orderError order else Str "order error")
        else if String.eqb (status order) "failed" then
          statusFailed "order_failed" (Str "order was unsuccessful")
        else if String.eqb (status order) "cancelled" then
          statusFailed "order_cancelled" (Str "order was cancelled")
        else if String.eqb (status order) "complete" then
          statusComplete "order_complete" (Str "order completed successfully")
        else
          match rate swap with
          | None => statusPending "fetching_rate" (Str "fetching market info")
          | Some _ =>
              match tx swap with
              | None => statusPending "creating_tx" (Str "generating transaction")
              | Some tx =>
                  if negb (receipt tx) then
                    if truthy (sendingError tx) then statusFailed "send_tx_error" (sendingError tx)
                    else if sending tx then statusPending "sending" (Str "sending transaction")
                    else if sent tx then
                      statusPending "pending_receipt" (Str "waiting for transaction receipt")
                    else if truthy (signingError tx) then
                      statusFailed "sign_tx_error" (signingError tx)
                    else if signing tx then statusPending "signing" (Str "awaiting signature")
                    else if signed tx then statusPending "signed" (Str "signed")
                    else if negb (signingSupported tx) then
                      statusPending "signing_unsupported" (Str "wallet cannot sign")
                    else statusPending "unsigned" (Str "unsigned")
                  else statusPending "processing" (Str "processing swap")
              end
          end
    end.

(** *** The priority order of the specification

    Status as "the first matching condition", written as a table of rules
    tried from the top: the swap error, then the terminal states of the order,
    then the pending sub-states. *)

Definition Rule : Type := Swap -> option Status.

Definition whenOrder (f : Order -> option Status) : Rule :=
  fun swap => match order swap with Some o => f o | None => None end.

Definition whenTx (f : Tx -> option Status) : Rule :=
  fun swap => match tx swap with Some t => f t | None => None end.

Definition guard (b : bool) (st : Status) : option Status :=
  if b then Some st else None.

Definition errorRules : list Rule := [
  (fun swap =>
     match swapError swap with
     | Str e => guard (truthy (Str e) && includes "insufficient funds" (toLowerCase e))
                  (statusFailed "insufficient_funds" (Str "insufficient funds"))
     | _ => None
     end);
  (fun swap => guard (truthy (swapError swap))
                 (statusFailed "error" (getSwapFriendlyError swap)))
].

Definition orderTerminalRules : list Rule := [
  whenOrder (fun o => guard (truthy (orderError o))
     (statusFailed "order_error"
        (if isString (orderError o) then orderError o else Str "order error")));
  whenOrder (fun o => guard (String.eqb (status o) "failed")
     (statusFailed "order_failed" (Str "order was unsuccessful")));
  whenOrder (fun o => guard (String.eqb (status o) "cancelled")
     (statusFailed "order_cancelled" (Str "order was cancelled")));
  whenOrder (fun o => guard (String.eqb (status o) "complete")
     (statusComplete "order_complete" (Str "order completed successfully")))
].

Definition noReceipt (t : Tx) (b : bool) : bool := negb (receipt t) && b.

Definition pendingRules : list Rule := [
  (fun swap => guard (match order swap with None => true | Some _ => false end)
     (statusPending "creating_order" (Str "creating swap order")));
  (fun swap => guard (match rate swap with None => true | Some _ => false end)
     (statusPending "fetching_rate" (Str "fetching market info")));
  (fun swap => guard (match tx swap with None => true | Some _ => false end)
     (statusPending "creating_tx" (Str "generating transaction")));
  whenTx (fun t => guard (noReceipt t (truthy (sendingError t)))
     (statusFailed "send_tx_error" (sendingError t)));
  whenTx (fun t => guard (noReceipt t (sending t))
     (statusPending "sending" (Str "sending transaction")));
  whenTx (fun t => guard (noReceipt t (sent t))
     (statusPending "pending_receipt" (Str "waiting for transaction receipt")));
  whenTx (fun t => guard (noReceipt t (truthy (signingError t)))
     (statusFailed "sign_tx_error" (signingError t)));
  whenTx (fun t => guard (noReceipt t (signing t))
     (statusPending "signing" (Str "awaiting signature")));
  whenTx (fun t => guard (noReceipt t (signed t))
     (statusPending "signed" (Str "signed")));
  whenTx (fun t => guard (noReceipt t (negb (signingSupported t)))
     (statusPending "signing_unsupported" (Str "wallet cannot sign")));
  whenTx (fun t => guard (noReceipt t true)
     (statusPending "unsigned" (Str "unsigned")))
].

Definition processing : Status := statusPending "processing" (Str "processing swap").

Fixpoint firstMatch (rules : list Rule) (swap : Swap) : option Status :=
  match rules with
  | [] => None
  | r :: rules' =>
      match r swap with
      | Some st => Some st
      | None => firstMatch rules' swap
      end
  end.

Definition statusByPriority (swap : Swap) : Status :=
  match firstMatch (errorRules ++ orderTerminalRules ++ pendingRules) swap with
  | Some st => st
  | None => processing
  end.

(** The fields [getSwapStatus] and [getSwapFriendlyError] read. *)
Definition sameStatusFields (a b : Swap) : Prop :=
  swapError a = swapError b /\ errorType a = errorType b /\ order a = order b
  /\ (rate a = None <-> rate b = None) /\ tx a = tx b.

End SwapStatus.

(** ** EthereumWallet: building an account-model transaction *)

Module Ethereum.

Import Data.

Record TxOptions : Type := mkTxOptions {
  previousTx : option Tx;
  optNonce : option N;
  optGasPrice : option N;
  optGasLimit : option N;
  optGas : option N
}.

(** The network as web3 answers at build time; [None] or [Err] is a rejected
    request. *)
Record Web3 : Type := mkWeb3 {
  getGasPrice : Result Thrown N;
  estimateGas : string -> string -> Z -> string -> Result Thrown N;  (* from, to, value, data *)
  getTransactionCount : string -> Result Thrown N
}.

(** What the builder takes from Config, Utilities/convert, ./util and the
    Wallet base class: the chain id, unit conversion, token call data and the
    transaction skeleton of [_newTransaction]. *)
Record Helpers : Type := mkHelpers {
  ethereumChainId : N;
  toSmallestDenomination : BigNumber -> N -> Z;
  tokenSendData : string -> BigNumber -> N -> string;
  toTxFee : N -> N -> BigNumber;
  _newTransaction : Asset -> list TxOutput -> Tx
}.

Definition DEFAULT_GAS_PRICE : N := 21000000000%N.

(** [x || y] on an optional number: [undefined] and [0] are falsy. *)
Definition orElse (x : option N) (y : Result Thrown N) : Result Thrown N :=
  match x with
  | Some n => if (n =? 0)%N then y else Ok n
  | None => y
  end.

Definition orOption (x y : option N) : option N :=
  match x with
  | Some n => if (n =? 0)%N then y else Some n
  | None => y
  end.

Section Wallet.

Variable helpers : Helpers.
Variable web3 : Web3.

(** [web3.eth.getGasPrice().catch(() => DEFAULT_GAS_PRICE)] *)
Definition _getDefaultFeeRate : N :=
  match getGasPrice web3 with
  | Ok gasPrice => gasPrice
  | Err _ => DEFAULT_GAS_PRICE
  end.

(** The nonce chosen before the network is asked: the explicit option, else
    the successor of the previous transaction's nonce when that transaction
    is from the same address. *)
Definition customNonce (self : string) (options : TxOptions) : Result Thrown (option N) :=
  match optNonce options with
  | Some n => Ok (Some n)
  | None =>
      match previousTx options with
      | None => Ok None
      | Some prev =>
          match txData prev with
          | None => Err (ErrorObj "Cannot read property 'from' of undefined")
          | Some d =>
              if String.eqb (toLowerCase (from d)) (toLowerCase self)
              then Ok (Some (nonce d + 1)%N)
              else Ok None
          end
      end
  end.

Definition _createTransaction (self : string) (address : string) (amount : BigNumber)
    (asset : Asset) (options : TxOptions) : Result Thrown Tx :=
  let routed :=
    if String.eqb (symbol asset) "ETH" then
      Ok (address, toSmallestDenomination helpers amount (decimals asset), EmptyString)
    else if ERC20 asset then
      Ok (contractAddress asset, 0, tokenSendData helpers address amount (decimals asset))
    else
      Err (ErrorObj ("Unsupported asset " +:+ symbol asset
                     +:+ " provided to EthereumWallet.createTransaction")) in
  match routed with
  | Err e => Err e
  | Ok (txTo, txValue, txCallData) =>
      match customNonce self options with
      | Err e => Err e
      | Ok custom =>
          let customGasPrice := optGasPrice options in
          let customGasLimit := orOption (optGasLimit options) (optGas options) in
          match orElse customGasPrice (Ok _getDefaultFeeRate),
                orElse customGasLimit (estimateGas web3 self txTo txValue txCallData),
                orElse custom (getTransactionCount web3 self) with
          | Ok gasPrice, Ok gasLimit, Ok nonce =>
              let skeleton := _newTransaction helpers asset [mkTxOutput address amount] in
              Ok (mkTx (txId skeleton) (txAmount skeleton)
                    (Some (toTxFee helpers gasLimit gasPrice)) "ETH"
                    (txOutputs skeleton)
                    (Some (mkTxData (ethereumChainId helpers) self txValue txCallData txTo
                             gasPrice gasLimit nonce))
                    (txError skeleton) (receipt skeleton)
                    (sendingError skeleton) (sending skeleton) (sent skeleton)
                    (signingError skeleton) (signing skeleton) (signed skeleton)
                    (signingSupported skeleton))
          | Err e, _, _ => Err e
          | _, Err e, _ => Err e
          | _, _, Err e => Err e
          end
      end
  end.

End Wallet.

End Ethereum.

(** ** app/actions/swundle.js *)

Module Swundle.

Import Data.

(** *** Persisted state

    The records of the two serialization formats [restoreSwundles] reads. *)

Record StoredTx : Type := mkStoredTx {
  storedId : JsValue;                         (* the [id] property *)
  storedFields : list (string * JsValue)      (* the other properties *)
}.

Record StoredSwap : Type := mkStoredSwap {
  storedSwapId : option string;
  storedSendWalletId : string;
  storedSendSymbol : string;
  storedSendUnits : BigNumber;
  storedReceiveWalletId : option string;
  storedReceiveSymbol : string;
  storedFee : BigNumber;
  storedOrder : option Order;
  storedRate : BigNumber;
  storedTx : option StoredTx;
  storedTxId : JsValue
}.

Record StoredSwundle : Type := mkStoredSwundle {
  storedSwundleId : string;
  storedCreatedDate : N;
  storedSwaps : list string;
  storedDismissed : bool
}.

(** One entry of the [list] of a V1 send-group. *)
Record Receive : Type := mkReceive {
  receiveWallet : option string;    (* walletId *)
  receiveSym : string;              (* symbol *)
  unit_ : BigNumber;                (* unit *)
  fee : BigNumber;
  receiveOrder : option Order;      (* order *)
  receiveRate : BigNumber;          (* rate *)
  txHash : JsValue;
  receiveTx : option StoredTx       (* tx *)
}.

Record Send : Type := mkSend {
  sendWallet : string;              (* walletId *)
  sendSym : string;                 (* symbol *)
  list_ : list Receive              (* list *)
}.

(** [swap] is [None] unless the property is an array or an object (whose
    values are then taken in order); [tx] and [swundle] are [None] when
    falsy. *)
Record V2State : Type := mkV2State {
  v2swap : option (list StoredSwap);
  v2tx : option (list (string * StoredTx));
  v2swundle : option (list (string * StoredSwundle))
}.

Inductive Persisted : Type :=
| NotAnObject                       (* undefined, null, a number, a string *)
| PersistedObject (o : V2State)
| PersistedArray (sends : list Send).

(** *** Dispatched actions and promises *)

(** The [error] property of a failure action: a message string, the thrown
    value itself, or [undefined]. *)
Inductive Payload : Type :=
| PString (s : string)
| PThrown (e : Thrown)
| PUndefined.

Inductive Action : Type :=
| SwundleAdded (id : string) (created : N) (swapIds : list (option string))
| SwundleRemoved (id : string)
| SwundleDismissed (id : string)
| InitStarted (id : string)
| InitSuccess (id : string)
| InitFailed (id : string) (error : Payload)
| SignStarted (id : string)
| SignSuccess (id : string)
| SignFailed (id : string) (error : Payload)
| SendStarted (id : string)
| SendSuccess (id : string)
| SendFailed (id : string) (error : Payload)
| SetSwapTx (swapId : option string) (t : Tx) (outputIndex : option nat)
| SwundlesRestored (swundles : list (string * StoredSwundle))
| SwapsRestored (swaps : list StoredSwap)
| TxsRestored (txs : list (string * StoredTx))
| TxRestored (t : StoredTx).

(** [e.message || e] and [e.message] *)
Definition messageOrSelf (e : Thrown) : Payload :=
  match e with
  | ErrorObj EmptyString => PThrown e
  | ErrorObj m => PString m
  | Rejection _ => PThrown e
  end.


(** A wallet as the store holds it. *)
Record WalletState : Type := mkWalletState {
  walletId : string;
  walletLabel : string;                 (* empty when the wallet has no label *)
  balances : gmap string BigNumber
}.

(** What the code asks of a wallet instance. *)
Record WalletInstance : Type := mkWalletInstance {
  isAggregateTransactionSupported : string -> bool;
  createTransaction : string -> BigNumber -> Asset -> Ethereum.TxOptions -> Result Thrown Tx
}.

(** The options object handed to [sendSwap]. *)
Definition SendOptions : Type := list (string * JsValue).

Section Thunks.

(** Everything outside the store that the collaborating thunks read or
    change: the network, the signing devices, the clock. *)
Context {World : Type}.

Record State : Type := mkState {
  actions : list Action;     (* every action dispatched so far, oldest first *)
  world : World
}.

(** A promise-returning thunk: run from a state, it leaves a state and either
    resolves with a value or rejects. *)
Definition Promise (A : Type) : Type := State -> State * Result Thrown A.

Definition resolve {A} (a : A) : Promise A := fun st => (st, Ok a).
Definition reject {A} (e : Thrown) : Promise A := fun st => (st, Err e).

Definition andThen {A B} (p : Promise A) (k : A -> Promise B) : Promise B :=
  fun st =>
    match p st with
    | (st', Ok a) => k a st'
    | (st', Err e) => (st', Err e)
    end.

Definition catch {A} (p : Promise A) (handler : Thrown -> Promise A) : Promise A :=
  fun st =>
    match p st with
    | (st', Ok a) => (st', Ok a)
    | (st', Err e) => handler e st'
    end.

(** The state after one more action has been dispatched. *)
Definition after (st : State) (a : Action) : State :=
  mkState (actions st ++ [a]) (world st).

Definition dispatch (a : Action) : Promise unit :=
  fun st => (after st a, Ok tt).

(** A synchronous function of the state that may throw. *)
Definition fromState {A} (f : State -> Result Thrown A) : Promise A :=
  fun st => (st, f st).

Notation "'do' x <- p ; k" := (andThen p (fun x => k))
  (at level 10, x name, p at level 99, k at level 200).
Notation "'run' p ; k" := (andThen p (fun _ => k))
  (at level 10, p at level 99, k at level 200).

(** [Promise.all(xs.map(f))]: every chain is started and runs to its end;
    the result rejects with the first rejection among them.  The chains are
    run one after the other, which is one of the schedules of the event loop. *)
Fixpoint promiseAll {A B} (f : A -> Promise B) (xs : list A) : Promise (list B) :=
  match xs with
  | [] => resolve []
  | x :: xs' =>
      fun st =>
        match f x st with
        | (st1, r) =>
            match promiseAll f xs' st1 with
            | (st2, rs) =>
                (st2, match r, rs with
                      | Ok b, Ok bs => Ok (b :: bs)
                      | Err e, _ => Err e
                      | Ok _, Err e => Err e
                      end)
            end
        end
  end.

(** Modelled from the spec: [processArray] of Utilities/helpers, whose source
    file is missing.  The handler is applied to the elements one at a time,
    in order, each after the previous promise has resolved; a rejection stops
    the processing and rejects the result. *)
Fixpoint processArray {A B} (xs : list A) (handler : A -> Promise B) : Promise (list B) :=
  match xs with
  | [] => resolve []
  | x :: xs' =>
      do b <- handler x ;
      do bs <- processArray xs' handler ;
      resolve (b :: bs)
  end.

Definition withSwaps (swundle : Swundle) (swaps : list Swap) : Swundle :=
  mkSwundle (swundleId swundle) (createdDate swundle) swaps (dismissed swundle).

Definition forEachSwap (swundle : Swundle) (handler : Swap -> Promise Swap) : Promise Swundle :=
  do swaps <- processArray (swaps swundle) handler ;
  resolve (withSwaps swundle swaps).

(** *** Collaborators

    The selectors, services and thunks that swundle.js imports: the wallet
    and swundle selectors of the store, [walletService.getOrThrow], the asset
    table, [createAggregateTx] of Actions/tx, the thunks of Actions/swap, the
    uuid generator and the clock. *)
Record Services : Type := mkServices {
  getAllWallets : State -> list (string * WalletState);
  getOrThrow : string -> Result Thrown WalletInstance;   (* walletService.getOrThrow *)
  getAsset : string -> Asset;
  createAggregateTx :
    string -> list TxOutput -> string -> Ethereum.TxOptions -> Promise Tx;
  getSwundle : State -> string -> option Swundle;
  getLatestSwundle : State -> option Swundle;
  updateMarketInfo : Swap -> Promise Swap;
  checkSufficientDeposit : Swap -> Promise Swap;
  createOrder : Swap -> Promise Swap;
  signSwap : Swap -> Promise Swap;
  sendSwap : Swap -> SendOptions -> Promise Swap;
  restoreSwapPolling : Swap -> Promise unit;
  uuid : World -> string * World;
  dateNow : World -> N
}.

Variable services : Services.

(** *** checkSufficientBalances *)

(** [{ amount, feeAmount }] under a wallet id and an asset symbol. *)
Record SendTotals : Type := mkSendTotals {
  totalAmount : option BigNumber;
  totalFeeAmount : option BigNumber
}.

(** A JavaScript object as the list of its entries in insertion order, the
    order [Object.entries] follows for the keys used here (wallet ids and
    asset symbols; keys that spell an array index would come first). *)
Fixpoint assocGet {V} (k : string) (m : list (string * V)) : option V :=
  match m with
  | [] => None
  | (k', v) :: m' => if String.eqb k k' then Some v else assocGet k m'
  end.

Fixpoint upsert {V} (k : string) (f : option V -> V) (m : list (string * V)) : list (string * V) :=
  match m with
  | [] => [(k, f None)]
  | (k', v) :: m' =>
      if String.eqb k k' then (k', f (Some v)) :: m' else (k', v) :: upsert k f m'
  end.

Definition Totals : Type := list (string * list (string * SendTotals)).

(** [mergeWith] along the path [walletId.symbol] of a one-leaf source. *)
Definition mergeAt (walletId symbol : string) (f : option SendTotals -> SendTotals)
    (totals : Totals) : Totals :=
  upsert walletId (fun inner => upsert symbol f (default [] inner)) totals.

Definition sumInto (existing : option BigNumber) (b : BigNumber) : option BigNumber :=
  match existing with
  | Some a => Some (plus a b)     (* a instanceof BigNumber: a.plus(b) *)
  | None => Some b
  end.

(** One leaf of the merge: the customizer adds a source BigNumber to a
    BigNumber that is already there, a source BigNumber is assigned where
    there is none, and a key the source lacks stays as it is. *)
Definition mergeLeaf (existing src : option BigNumber) : option BigNumber :=
  match src with
  | Some b => sumInto existing b
  | None => existing
  end.

(** [mergeSum(walletSendTotals, { [w]: { [s]: src } })] *)
Definition mergeSum (totals : Totals) (w s : string) (src : SendTotals) : Totals :=
  mergeAt w s (fun t =>
    match t with
    | Some t => mkSendTotals (mergeLeaf (totalAmount t) (totalAmount src))
                  (mergeLeaf (totalFeeAmount t) (totalFeeAmount src))
    | None => src
    end) totals.

(** The body of [swundle.swaps.forEach]. *)
Definition addSwap (totals : Totals) (swap : Swap) : Result Thrown Totals :=
  if truthy (swapError swap) then Ok totals
  else
    match tx swap with
    | None => Err (ErrorObj "Cannot destructure property 'amount' of 'tx' as it is undefined.")
    | Some t =>
        let totals := mergeSum totals (sendWalletId swap) (sendSymbol swap)
                        (mkSendTotals (Some (txAmount t)) None) in
        match feeAmount t with
        | Some fee => Ok (mergeSum totals (sendWalletId swap) (feeSymbol t)
                            (mkSendTotals None (Some fee)))
        | None => Ok totals
        end
    end.

Fixpoint walletSendTotals (swaps : list Swap) (totals : Totals) : Result Thrown Totals :=
  match swaps with
  | [] => Ok totals
  | swap :: swaps' =>
      match addSwap totals swap with
      | Ok totals' => walletSendTotals swaps' totals'
      | Err e => Err e
      end
  end.

Definition walletBalances (allWallets : list (string * WalletState))
    : gmap string (gmap string BigNumber) :=
  fold_left (fun byId kw => <[walletId (snd kw) := balances (snd kw)]> byId) allWallets ∅.

Definition balanceOf (allWallets : list (string * WalletState)) (w s : string) : BigNumber :=
  default ZERO (walletBalances allWallets !! w ≫= fun b => b !! s).

Definition labelOf (allWallets : list (string * WalletState)) (w : string) : string :=
  match assocGet w allWallets with
  | Some wallet => match walletLabel wallet with EmptyString => w | l => l end
  | None => w
  end.

Definition insufficient (allWallets : list (string * WalletState)) (w s : string)
    (t : SendTotals) : bool :=
  let totalAmount := default ZERO (totalAmount t) in
  let totalFee := default ZERO (totalFeeAmount t) in
  let balance := balanceOf allWallets w s in
  let amountPlusFee := plus totalAmount totalFee in
  isNegative (minus balance amountPlusFee).

Definition entries (totals : Totals) : list (string * string * SendTotals) :=
  flat_map (fun wm => List.map (fun st => (fst wm, fst st, snd st)) (snd wm)) totals.

Definition insufficientMessage (symbol label : string) : string :=
  "Insufficient " +:+ symbol +:+ " balance in wallet " +:+ label +:+ " for transaction fees.".

Definition checkSufficientBalances (swundle : Swundle) (st : State) : Result Thrown Swundle :=
  let allWallets := getAllWallets services st in
  match walletSendTotals (swaps swundle) [] with
  | Err e => Err e
  | Ok totals =>
      match List.find (fun e => insufficient allWallets (fst (fst e)) (snd (fst e)) (snd e))
              (entries totals) with
      | Some (w, s, _) => Err (ErrorObj (insufficientMessage s (labelOf allWallets w)))
      | None => Ok swundle
      end
  end.

(** The totals in the words of the specification: per funding wallet and asset
    symbol, the send amounts plus the fee amounts of the swaps without error. *)
Definition live (swaps : list Swap) : list Swap :=
  List.filter (fun swap => negb (truthy (swapError swap))) swaps.

Definition sentIn (w s : string) (swap : Swap) : BigNumber :=
  match tx swap with
  | Some t => if String.eqb (sendWalletId swap) w && String.eqb (sendSymbol swap) s
              then txAmount t else ZERO
  | None => ZERO
  end.

Definition feeIn (w s : string) (swap : Swap) : BigNumber :=
  match tx swap with
  | Some t =>
      match feeAmount t with
      | Some fee => if String.eqb (sendWalletId swap) w && String.eqb (feeSymbol t) s
                    then fee else ZERO
      | None => ZERO
      end
  | None => ZERO
  end.

Definition spent (w s : string) (swaps : list Swap) : BigNumber :=
  fold_right (fun swap acc => plus (plus (sentIn w s swap) (feeIn w s swap)) acc) ZERO
    (live swaps).

(** Some swap without error sends asset [s] from wallet [w] or pays its fee
    in it. *)
Definition charged (w s : string) (swaps : list Swap) : Prop :=
  exists swap t, In swap (live swaps) /\ tx swap = Some t /\ sendWalletId swap = w
    /\ (sendSymbol swap = s \/ (feeAmount t <> None /\ feeSymbol t = s)).

(** Reading the totals under a wallet id and a symbol, and what they add up
    to ([totalAmount || ZERO] plus [totalFee || ZERO]). *)
Definition getTotals (totals : Totals) (w s : string) : option SendTotals :=
  assocGet w totals ≫= assocGet s.

Definition totalOf (t : option SendTotals) : BigNumber :=
  match t with
  | Some t => plus (default ZERO (totalAmount t)) (default ZERO (totalFeeAmount t))
  | None => ZERO
  end.

(** No key occurs twice, at either level. *)
Definition keysDistinct (totals : Totals) : Prop :=
  NoDup (List.map fst totals) /\ Forall (fun wm => NoDup (List.map fst (snd wm))) totals.

(** *** createSwundleTxs *)

(** [_.groupBy(xs, key)]: keys in order of first occurrence, the members of a
    group in their original order. *)
Definition groupBy (key : Swap -> string) (xs : list Swap) : list (string * list Swap) :=
  fold_left (fun groups x => upsert (key x) (fun g => default [] g ++ [x]) groups) xs [].

Variable helpers : Ethereum.Helpers.
Variable web3 : Ethereum.Web3.

(** The Ethereum wallet of an address: [_isAggregateTransactionSupported]
    returns false, transactions come from [_createTransaction]. *)
Definition ethereumWallet (address : string) : WalletInstance :=
  mkWalletInstance (fun _ => false) (Ethereum._createTransaction helpers web3 address).

Definition noOptions : Ethereum.TxOptions :=
  Ethereum.mkTxOptions None None None None None.

(** [{ ...options, previousTx }] *)
Definition withPreviousTx (options : Ethereum.TxOptions) (previousTx : option Tx)
    : Ethereum.TxOptions :=
  Ethereum.mkTxOptions previousTx (Ethereum.optNonce options) (Ethereum.optGasPrice options)
    (Ethereum.optGasLimit options) (Ethereum.optGas options).

(** What [createSwapTx] resolves with: the built transaction, or an object
    that carries an [error]. *)
Inductive Built : Type :=
| BuiltTx (t : Tx)
| BuildFailed (error : Thrown).

(** Modelled from the spec: [createSwapTx] of Actions/swap, whose source file
    is missing.  It has the swap's funding wallet build the transaction that
    sends [sendUnits] of the send asset to the order's deposit address with
    the given options, attaches the transaction to the swap and resolves with
    it; a failure of the build is recorded as an error on what it resolves
    with and does not reject. *)
Definition createSwapTx (swap : Swap) (options : Ethereum.TxOptions) : Promise Built :=
  match getOrThrow services (sendWalletId swap), order swap with
  | Ok wallet, Some o =>
      match createTransaction wallet (deposit o) (sendUnits swap)
              (getAsset services (sendSymbol swap)) options with
      | Ok t => run dispatch (SetSwapTx (swapId swap) t None) ; resolve (BuiltTx t)
      | Err e => resolve (BuildFailed e)
      end
  | Err e, _ => resolve (BuildFailed e)
  | Ok _, None => resolve (BuildFailed (ErrorObj "Cannot read property 'deposit' of undefined"))
  end.

(** [let previousTx; processArray(swaps, (swap) => createSwapTx(swap,
    { ...options, previousTx }).then((tx) => { if (!tx.error) previousTx = tx }))] *)
Fixpoint chainSwapTxs (options : Ethereum.TxOptions) (swaps : list Swap)
    (previousTx : option Tx) : Promise (list Built) :=
  match swaps with
  | [] => resolve []
  | swap :: swaps' =>
      do built <- createSwapTx swap (withPreviousTx options previousTx) ;
      let previousTx' :=
        match built with
        | BuiltTx t => if truthy (txError t) then previousTx else Some t
        | BuildFailed _ => previousTx
        end in
      do rest <- chainSwapTxs options swaps' previousTx' ;
      resolve (built :: rest)
  end.

(** [swaps.map(({ sendUnits, order }) => ({ address: order.deposit, amount:
    sendUnits }))]; reading [deposit] of a missing order throws. *)
Fixpoint aggregateOutputs (swaps : list Swap) : Result Thrown (list TxOutput) :=
  match swaps with
  | [] => Ok []
  | swap :: swaps' =>
      match order swap with
      | None => Err (ErrorObj "Cannot read property 'deposit' of undefined")
      | Some o =>
          match aggregateOutputs swaps' with
          | Ok outs => Ok (mkTxOutput (deposit o) (sendUnits swap) :: outs)
          | Err e => Err e
          end
      end
  end.

Fixpoint indexedFrom {A} (i : nat) (xs : list A) : list (nat * A) :=
  match xs with
  | [] => []
  | x :: xs' => (i, x) :: indexedFrom (S i) xs'
  end.

(** [swaps.map((swap, i) => dispatch(setSwapTx(swap.id, tx, i)))] *)
Definition attachToAll (t : Tx) (swaps : list Swap) : Promise (list unit) :=
  promiseAll (fun ix => dispatch (SetSwapTx (swapId (snd ix)) t (Some (fst ix))))
    (indexedFrom 0 swaps).

(** The callback of [Object.entries(swapsByAsset).map]: one asset group of one
    wallet.  A throw while the callback runs is taken as a rejection of the
    group. *)
Definition createGroupTxs (walletId : string) (walletInstance : WalletInstance)
    (options : Ethereum.TxOptions) (symbol : string) (swaps : list Swap) : Promise unit :=
  if isAggregateTransactionSupported walletInstance symbol then
    if existsb (fun swap => truthy (swapError swap)) swaps then resolve tt
    else
      match aggregateOutputs swaps with
      | Err e => reject e
      | Ok outputs =>
          do t <- createAggregateTx services walletId outputs symbol options ;
          run attachToAll t swaps ;
          resolve tt
      end
  else
    run chainSwapTxs options swaps None ;
    resolve tt.

Definition createWalletTxs (options : Ethereum.TxOptions)
    (entry : string * list Swap) : Promise (list unit) :=
  match getOrThrow services (fst entry) with
  | Err e => reject e
  | Ok walletInstance =>
      let swapsByAsset := groupBy sendSymbol (snd entry) in
      promiseAll (fun group => createGroupTxs (fst entry) walletInstance options
                                 (fst group) (snd group))
        swapsByAsset
  end.

Definition createSwundleTxs (swundle : Swundle) (options : Ethereum.TxOptions)
    : Promise (option Swundle) :=
  let swapsByWallet := groupBy sendWalletId (swaps swundle) in
  run promiseAll (createWalletTxs options) swapsByWallet ;
  fun st => (st, Ok (getSwundle services st (swundleId swundle))).

(** *** initSwundle, signSwundle, sendSwundle *)

(** The chain of [initSwundle] up to its [catch]. *)
Definition initChain (swundle : Swundle) : Promise (option Swundle) :=
  do swaps <- promiseAll
                (fun swap => do swap' <- updateMarketInfo services swap ;
                             checkSufficientDeposit services swap')
                (swaps swundle) ;
  do s <- resolve (withSwaps swundle swaps) ;
  do s <- fromState (checkSufficientBalances s) ;
  do s <- forEachSwap s (createOrder services) ;
  do s <- createSwundleTxs s noOptions ;
  run dispatch (InitSuccess (swundleId swundle)) ;
  resolve s.

Definition initSwundle (swundle : Swundle) : Promise (option Swundle) :=
  run dispatch (InitStarted (swundleId swundle)) ;
  catch (initChain swundle)
    (fun e => run dispatch (InitFailed (swundleId swundle) (messageOrSelf e)) ;
              resolve None).





(** *** restoreSwundles *)

Definition newUuid : Promise string :=
  fun st => let (id, w) := uuid services (world st) in (mkState (actions st) w, Ok id).

Definition validateSwundleV2 (state : Persisted) : bool :=
  match state with
  | PersistedObject o => match v2swap o with Some _ => true | None => false end
  | _ => false
  end.

(** The callback of [send.list.every]: [receiveSymbols] is created empty on
    every call and nothing is pushed to it. *)
Definition validReceive (receive : Receive) : bool :=
  let receiveSymbols : list string := [] in
  if negb (truthy (Str (receiveSym receive))) then false
  else if existsb (String.eqb (receiveSym receive)) receiveSymbols then false
  else if lessThanOrEqualTo (unit_ receive) ZERO then false
  else match receiveOrder receive with
       | None => false
       | Some _ => true
       end.

(** [swundle.every((send) => ...)] with the [sendSymbols] seen so far. *)
Fixpoint validSends (sends : list Send) (sendSymbols : list string) : bool :=
  match sends with
  | [] => true
  | send :: sends' =>
      if negb (truthy (Str (sendSym send))) then false
      else if existsb (String.eqb (sendSym send)) sendSymbols then false
      else if forallb validReceive (list_ send)
           then validSends sends' (sendSymbols ++ [sendSym send])
           else false
  end.

Definition validateSwundleV1 (swundle : Persisted) : bool :=
  match swundle with
  | PersistedArray sends => validSends sends []
  | _ => false
  end.

(** [{ id: receive.txHash, ...(receive.tx || {}) }] *)
Definition restoredTx (receive : Receive) : StoredTx :=
  match receiveTx receive with
  | Some t =>
      match storedId t with
      | Undefined => mkStoredTx (txHash receive) (storedFields t)
      | _ => t
      end
  | None => mkStoredTx (txHash receive) []
  end.

Definition v1Swap (send : Send) (receive : Receive) : StoredSwap :=
  mkStoredSwap None (sendWallet send) (sendSym send) (unit_ receive)
    (receiveWallet receive) (receiveSym receive) (fee receive)
    (receiveOrder receive) (receiveRate receive) (Some (restoredTx receive)) Undefined.

(** [state.reduce((swapList, send) => [...swapList, ...send.list.map(...)], [])] *)
Definition v1SwapList (sends : list Send) : list StoredSwap :=
  fold_left (fun swapList send => swapList ++ List.map (v1Swap send) (list_ send)) sends [].

(** The [swapList.forEach] of the V2 branch: a transaction without id gets a
    fresh one, which is also written to the swap's [txId]. *)
Fixpoint restoreTxs (swapList : list StoredSwap) : Promise (list StoredSwap) :=
  match swapList with
  | [] => resolve []
  | swap :: rest =>
      do swap' <-
        match storedTx swap with
        | None => resolve swap
        | Some t =>
            if truthy (storedId t) then
              run dispatch (TxRestored t) ; resolve swap
            else
              do id <- newUuid ;
              let t' := mkStoredTx (Str id) (storedFields t) in
              run dispatch (TxRestored t') ;
              resolve (mkStoredSwap (storedSwapId swap) (storedSendWalletId swap)
                         (storedSendSymbol swap) (storedSendUnits swap)
                         (storedReceiveWalletId swap) (storedReceiveSymbol swap)
                         (storedFee swap) (storedOrder swap) (storedRate swap)
                         (Some t') (Str id))
        end ;
      do rest' <- restoreTxs rest ;
      resolve (swap' :: rest')
  end.

(** [((swapList[0] || {}).order || {}).created || Date.now()] *)
Definition syntheticCreatedDate (swapList : list StoredSwap) (now : N) : N :=
  match swapList with
  | swap :: _ =>
      match storedOrder swap with
      | Some o => if (created o =? 0)%N then now else created o
      | None => now
      end
  | [] => now
  end.

(** [dispatch(restoreSwapPolling(swap))] for each swap; what the thunk returns
    is dropped. *)
Fixpoint pollAll (swaps : list Swap) : Promise unit :=
  match swaps with
  | [] => resolve tt
  | swap :: swaps' =>
      fun st => pollAll swaps' (fst (restoreSwapPolling services swap st))
  end.

Definition restoreLatestSwundlePolling : Promise unit :=
  fun st =>
    match getLatestSwundle services st with
    | None => (st, Ok tt)
    | Some latestSwundle =>
        if dismissed latestSwundle then (st, Ok tt)
        else pollAll (swaps latestSwundle) st
    end.

(** The two branches that fill [swapList] and [hasSwundle]. *)
Definition restoreSwapList (state : Persisted) : Promise (option (list StoredSwap) * bool) :=
  if validateSwundleV2 state then
    match state with
    | PersistedObject o =>
        run match v2tx o with
            | Some txs => dispatch (TxsRestored txs)
            | None => resolve tt
            end ;
        do swapList <- restoreTxs (default [] (v2swap o)) ;
        run dispatch (SwapsRestored swapList) ;
        match v2swundle o with
        | Some swundles =>
            run dispatch (SwundlesRestored swundles) ;
            resolve (Some swapList, true)
        | None => resolve (Some swapList, false)
        end
    | _ => resolve (None, false)
    end
  else if validateSwundleV1 state then
    match state with
    | PersistedArray sends =>
        let swapList := v1SwapList sends in
        run dispatch (SwapsRestored swapList) ;
        resolve (Some swapList, false)
    | _ => resolve (None, false)
    end
  else resolve (None, false).

Definition restoreSwundles (state : Persisted) : Promise unit :=
  do restored <- restoreSwapList state ;
  run match restored with
      | (Some swapList, false) =>
          do createdDate <-
            (fun st => (st, Ok (syntheticCreatedDate swapList (dateNow services (world st))))) ;
          do id <- newUuid ;
          dispatch (SwundleAdded id createdDate (List.map storedSwapId swapList))
      | _ => resolve tt
      end ;
  restoreLatestSwundlePolling.

(** The creation dates of the swundles added so far. *)
Definition addedDates (acts : list Action) : list N :=
  flat_map (fun a => match a with SwundleAdded _ created _ => [created] | _ => [] end) acts.

(** The restored swap lists dispatched so far. *)
Definition restoredSwapLists (acts : list Action) : list (list StoredSwap) :=
  flat_map (fun a => match a with SwapsRestored l => [l] | _ => [] end) acts.

(** The earliest order-creation date among restored swaps, if any has one. *)
Definition orderCreated (swap : StoredSwap) : option N :=
  match storedOrder swap with
  | Some o => if (created o =? 0)%N then None else Some (created o)
  | None => None
  end.

Definition earliestCreated (swapList : list StoredSwap) : option N :=
  fold_right (fun swap acc =>
                match orderCreated swap, acc with
                | Some c, Some m => Some (N.min c m)
                | Some c, None => Some c
                | None, acc => acc
                end) None swapList.

(** *** Observations on a run *)







(** What [validateSwundleV1] asks of a receive entry and of a send-group. *)
Definition receiveOk (receive : Receive) : Prop :=
  receiveSym receive <> EmptyString
  /\ (0 < unit_ receive)%Qc
  /\ receiveOrder receive <> None.

Definition sendOk (send : Send) : Prop :=
  sendSym send <> EmptyString /\ Forall receiveOk (list_ send).


End Thunks.

End Swundle.

(** ** Concrete data

    A small portfolio on which the definitions above are run: an Ethereum
    wallet, a wallet with aggregate transactions, and collaborators that
    resolve at once. *)

Module Examples.

Import Data Swundle.

(** *** The selector *)

Definition account : Bitcore.AccountInfo :=
  Bitcore.mkAccount [Bitcore.mkUtxo 100000 10 "f3a1" 0 [0%nat; 4%nat]] 2 ["mChange0"; "mChange1"; "mChange2"].

Definition desired : list Bitcore.TxOutput := [Bitcore.mkOutput "mDeposit" 50000].

Definition paid : Bitcore.PaymentTx :=
  Bitcore.mkPaymentTx [Bitcore.mkUtxo 100000 10 "f3a1" 0 [0%nat; 4%nat]]
    [Bitcore.mkOutput "mDeposit" 50000]
    [Bitcore.mkScriptOutput (Some "mDeposit") 50000; Bitcore.mkScriptOutput (Some "mChange2") 47740]
    2260 47740 (Some [1%nat; 2%nat]) (Some "mChange2") false.

(** An account whose only UTXO is exactly the amount to send. *)
Definition drained : Bitcore.AccountInfo :=
  Bitcore.mkAccount [Bitcore.mkUtxo 50000 10 "f3a1" 0 [0%nat; 4%nat]] 0 ["mChange0"].

(** *** Wallets, assets and collaborators *)

Definition skeleton (asset : Asset) (outs : list TxOutput) : Tx :=
  mkTx Undefined (fold_right (fun o acc => plus (amount o) acc) ZERO outs) None EmptyString
    outs None Undefined false Undefined false false Undefined false false true.

Definition helpers : Ethereum.Helpers :=
  Ethereum.mkHelpers 1
    (fun amount decimals => Qfloor (this amount * inject_Z (10 ^ Z.of_N decimals)))
    (fun address _ _ => "0xa9059cbb" +:+ address)
    (fun gasLimit gasPrice => Q2Qc (Z.of_N (gasLimit * gasPrice) # 1000000000000000000))
    skeleton.

Definition web3 : Ethereum.Web3 :=
  Ethereum.mkWeb3 (Ok 1000000000%N) (fun _ _ _ _ => Ok 21000%N) (fun _ => Ok 7%N).

Definition ether : Asset := mkAsset "ETH" false EmptyString 18.
Definition token : Asset := mkAsset "OMG" true "0xd26114cd" 18.

Definition wallets : list (string * WalletState) :=
  [("w-eth", mkWalletState "w-eth" "Main" {[ "ETH" := Q2Qc 1 ]})].

Definition aggregated (walletId : string) (outs : list TxOutput) (symbol : string) : Tx :=
  mkTx (Str "agg-1") (fold_right (fun o acc => plus (amount o) acc) ZERO outs)
    (Some (Q2Qc (1 # 10000))) symbol outs None Undefined false Undefined false false
    Undefined false false true.

Definition services : Services (World := unit) :=
  mkServices
    (fun _ => wallets)
    (fun id =>
       if String.eqb id "w-eth" then Ok (ethereumWallet helpers web3 "0xAbC1")
       else if String.eqb id "w-btc"
            then Ok (mkWalletInstance (fun _ => true)
                       (fun _ _ _ _ => Err (ErrorObj "Unsupported asset")))
            else Err (ErrorObj ("Unknown wallet " +:+ id)))
    (fun symbol => if String.eqb symbol "ETH" then ether else token)
    (fun walletId outs symbol _ => resolve (aggregated walletId outs symbol))
    (fun _ _ => None)
    (fun _ => None)
    resolve resolve resolve
    (fun swap => match tx swap with
                 | Some _ => resolve swap
                 | None => reject (ErrorObj "No transaction to sign")
                 end)
    (fun swap _ => match tx swap with
                   | Some _ => resolve swap
                   | None => reject (ErrorObj "No transaction to send")
                   end)
    (fun _ => resolve tt)
    (fun w => ("1b9d6bcd-bbfd-4b2d", w))
    (fun _ => 1541030400000%N).

Definition start : State (World := unit) := mkState [] tt.

Definition pendingOrder (address : string) (createdAt : N) : Order :=
  mkOrder address "pending" Undefined createdAt.

Definition sends (id symbol walletId : string) (units : Qc) (t : option Tx) : Swap :=
  mkSwap (Some id) walletId symbol units None "BTC" "1Receive" (Some (Q2Qc (1 # 30)))
    (Some (pendingOrder ("0xdep-" +:+ id) 0)) t Undefined Undefined.

Definition draft (amount : Qc) : Tx :=
  mkTx (Str "draft") amount None "ETH" [] None Undefined false Undefined false false
    Undefined false false true.

(** Two swaps of 0.6 ETH each from a wallet that holds 1 ETH. *)
Definition first : Swap := sends "s1" "ETH" "w-eth" (Q2Qc (6 # 10)) (Some (draft (Q2Qc (6 # 10)))).
Definition second : Swap := sends "s2" "ETH" "w-eth" (Q2Qc (6 # 10)) (Some (draft (Q2Qc (6 # 10)))).
Definition overdrawn : Swundle := mkSwundle "sw-1" 0 [first; second] false.




(** A swundle whose first swap has nothing to sign. *)
Definition unsignable : Swundle :=
  mkSwundle "sw-3" 0 [sends "s1" "ETH" "w-eth" (Q2Qc (1 # 10)) None] false.

(** *** Persisted payloads *)

Definition stored (id : string) (createdAt : N) : StoredSwap :=
  mkStoredSwap (Some id) "w-eth" "ETH" (Q2Qc 1) None "BTC" (Q2Qc 0)
    (Some (pendingOrder "0xdep" createdAt)) (Q2Qc (1 # 30)) None Undefined.

(** V2: the first swap's order is younger than the second's. *)
Definition v2Payload : Persisted :=
  PersistedObject (mkV2State (Some [stored "s1" 200; stored "s2" 100]) None None).

Definition entry (symbol : string) : Receive :=
  mkReceive None symbol (Q2Qc 1) (Q2Qc 0) (Some (pendingOrder "0xdep" 0)) (Q2Qc (1 # 30))
    (Str "0xhash") None.


(** *** Swaps for the status *)

Definition quoted (id : string) (r : Qc) : Swap :=
  mkSwap (Some id) "w-eth" "ETH" (Q2Qc 1) None "BTC" "1Receive" (Some r)
    (Some (pendingOrder "0xdep" 0)) None Undefined Undefined.

End Examples.

(** ** Bitcore.ts: what the selector is measured against, and [getBitcore] *)

Module BitcoreService.

Import Bitcore.

(** A UTXO with at least six confirmations. *)
Definition mature (u : UtxoInfo) : Prop := confirmations u >= 6.

(** The value of all outputs handed to the transaction builder. *)
Definition scriptTotal (outs : list ScriptOutput) : Z :=
  fold_right (fun o acc => scriptAmount o + acc) 0 outs.

Section Instances.

(** The part of a network description that comes from [coininfo]. *)
Variable NetworkConfig : Type.
Variable getNetworkConfig : string -> NetworkConfig.

Record Network : Type := mkNetwork {
  coin : NetworkConfig;
  messagePrefix : string
}.

Record BitcoreConfig : Type := mkBitcoreConfig {
  symbol : string;
  bitcoreUrls : list string;
  network : Network
}.

(** What the constructor keeps of its config. *)
Record BitcoreInstance : Type := mkBitcoreInstance {
  assetSymbol : string;
  instanceNetwork : Network;
  instanceUrls : list string
}.

Definition newBitcore (config : BitcoreConfig) : BitcoreInstance :=
  mkBitcoreInstance (symbol config) (network config) (bitcoreUrls config).

Definition configList : list BitcoreConfig := [
  mkBitcoreConfig "BTC"
    ["https://btc.bitaccess.ca"; "https://blockexplorer.com";
     "https://bitcore1.trezor.io"; "https://bitcore3.trezor.io"]
    (mkNetwork (getNetworkConfig "BTC")
       (String "024" ("Bitcoin Signed Message:" +:+ String "010" EmptyString)));
  mkBitcoreConfig "LTC"
    ["https://ltc-bitcore3.trezor.io"]
    (mkNetwork (getNetworkConfig "LTC")
       (String "025" ("Litecoin Signed Message:" +:+ String "010" EmptyString)))
].

(** [[...].reduce((bySymbol, config) => ({ ...bySymbol, [config.symbol]: config }), {})] *)
Definition bitcoreConfigs : gmap string BitcoreConfig :=
  fold_left (fun bySymbol config => <[symbol config := config]> bySymbol) configList ∅.

(** The module state: the instance cache, and the symbols a [Bitcore] has been
    constructed for, oldest first (constructing one starts its workers). *)
Record Registry : Type := mkRegistry {
  bitcoreInstances : gmap string BitcoreInstance;
  constructed : list string
}.

(** The property names every object inherits from [Object.prototype]:
    reading one of them from the cache object yields the inherited member,
    which is truthy. *)
Definition objectPrototype : list string :=
  ["constructor"; "hasOwnProperty"; "isPrototypeOf"; "propertyIsEnumerable";
   "toLocaleString"; "toString"; "valueOf"; "__proto__";
   "__defineGetter__"; "__defineSetter__"; "__lookupGetter__"; "__lookupSetter__"].

Definition inherited (name : string) : bool :=
  existsb (String.eqb name) objectPrototype.

(** What [bitcoreInstances[assetSymbol]] can be when it is truthy. *)
Inductive Found : Type :=
| Instance (bitcore : BitcoreInstance)
| Inherited (name : string).

Definition getBitcore (assetSymbol : string) (reg : Registry)
    : Registry * Result string Found :=
  match bitcoreInstances reg !! assetSymbol with
  | Some bitcore => (reg, Ok (Instance bitcore))
  | None =>
      if inherited assetSymbol then (reg, Ok (Inherited assetSymbol))
      else
        match bitcoreConfigs !! assetSymbol with
        | Some bitcoreConfig =>
            let bitcore := newBitcore bitcoreConfig in
            (mkRegistry (<[assetSymbol := bitcore]> (bitcoreInstances reg))
               (constructed reg ++ [symbol bitcoreConfig]),
             Ok (Instance bitcore))
        | None => (reg, Err ("Bitcore not configured for asset " +:+ assetSymbol))
        end
  end.

Definition emptyRegistry : Registry := mkRegistry ∅ [].

End Instances.

Arguments coin {NetworkConfig} _.
Arguments messagePrefix {NetworkConfig} _.
Arguments symbol {NetworkConfig} _.
Arguments bitcoreUrls {NetworkConfig} _.
Arguments network {NetworkConfig} _.
Arguments assetSymbol {NetworkConfig} _.
Arguments instanceNetwork {NetworkConfig} _.
Arguments instanceUrls {NetworkConfig} _.
Arguments Instance {NetworkConfig} _.
Arguments Inherited {NetworkConfig} _.
Arguments bitcoreInstances {NetworkConfig} _.
Arguments constructed {NetworkConfig} _.

End BitcoreService.

(** ** EthereumWallet: asset support, balances and validation *)

Module EthereumWallet.

Import Data.


(** [asset && (asset.symbol === 'ETH' || asset.ERC20)] *)
Definition _isAssetSupported (asset : option Asset) : bool :=
  match asset with
  | Some asset => String.eqb (symbol asset) "ETH" || ERC20 asset
  | None => false
  end.

(** [a.gt(b)] *)
Definition gt (a b : BigNumber) : bool :=
  (Qnum (this a) * Zpos (Qden (this b)) >? Qnum (this b) * Zpos (Qden (this a)))%Z.

(** The two requests [_getBalance] batches, as the node answers them, and the
    helpers of ./util and Utilities/convert it uses. *)
Record Node : Type := mkNode {
  getBalance : string -> Result Thrown N;        (* web3.eth.getBalance(address, 'latest') *)
  call : string -> string -> Result Thrown N;    (* web3.eth.call({ to, data }, 'latest') *)
  tokenBalanceData : string -> string;
  toMainDenomination : N -> N -> BigNumber
}.

Section Balances.

Variable node : Node.

Definition _getBalance (self : string) (asset : Asset) : Result Thrown BigNumber :=
  let request :=
    if String.eqb (symbol asset) "ETH" then getBalance node self
    else call node (contractAddress asset) (tokenBalanceData node self) in
  match request with
  | Ok balance => Ok (toMainDenomination node balance (decimals asset))
  | Err e => Err e
  end.

(** [Promise.all(assets.map((asset) => this._getBalance(asset, ...)
      .then((balance) => ({ symbol: asset.symbol, balance }))))] *)
Fixpoint balanceRequests (self : string) (assets : list Asset)
    : Result Thrown (list (string * BigNumber)) :=
  match assets with
  | [] => Ok []
  | asset :: rest =>
      match _getBalance self asset, balanceRequests self rest with
      | Ok balance, Ok balances => Ok ((symbol asset, balance) :: balances)
      | Err e, _ => Err e
      | Ok _, Err e => Err e
      end
  end.

(** [assets] is what [getSupportedAssets] of the Wallet base class returns. *)
Definition getAllBalances (self : string) (assets : list Asset)
    : Result Thrown (gmap string BigNumber) :=
  match balanceRequests self assets with
  | Err e => Err e
  | Ok balances =>
      Ok (fold_left
            (fun result sb =>
               if gt (snd sb) ZERO || String.eqb (fst sb) "ETH"
               then <[fst sb := snd sb]> result
               else result)
            balances ∅)
  end.

End Balances.







End EthereumWallet.

(** ** Utilities/swap: the status of a list of swaps *)

Module SwapList.

Import Data SwapStatus.

(** [swaps] is [None] for a falsy argument. *)
Definition statusAllSwaps (swaps : option (list Swap)) : option string :=
  match swaps with
  | None => None
  | Some [] => None
  | Some swaps =>
      let statusCodes := List.map code (List.map getSwapStatus swaps) in
      if existsb (String.eqb "failed") statusCodes then Some "failed"%string
      else if existsb (String.eqb "pending") statusCodes then Some "pending"%string
      else if forallb (fun status => String.eqb status "complete") statusCodes
           then Some "complete"%string
           else head statusCodes
  end.

Definition hasCode (c : string) (swap : Swap) : Prop := code (getSwapStatus swap) = c.

(** The error text mentions insufficient funds, in whatever letter case. *)
Definition mentionsInsufficientFunds (e : string) : Prop :=
  exists pre post, toLowerCase e = (pre +:+ "insufficient funds" +:+ post)%string.

End SwapList.

(** ** swundle.js: creating and dismissing a swundle *)

Module SwundleLifecycle.

Import Data Swundle.




(** What an accepted V1 payload guarantees of a restored swap. *)
Definition restoredOk (swap : StoredSwap) : Prop :=
  storedSendSymbol swap <> EmptyString
  /\ storedReceiveSymbol swap <> EmptyString
  /\ (0 < storedSendUnits swap)%Qc
  /\ storedOrder swap <> None
  /\ storedTx swap <> None.

Section Create.

Context {World : Type}.
Variable services : Services (World := World).

(** [addSwap] of Actions/swap. *)
Variable addSwap : Swap -> Promise (World := World) Swap.

Notation "'do' x <- p ; k" := (andThen p (fun x => k))
  (at level 10, x name, p at level 99, k at level 200).

(** [dispatch(swundleAdded({ id, createdDate: Date.now(), swaps }))] followed
    by [getSwundle(getState(), id)]. *)
Definition addSwundle (id : string) (swaps : list Swap) : Promise (option Swundle) :=
  fun st =>
    let st' := after st (SwundleAdded id (dateNow services (world st))
                           (List.map swapId swaps)) in
    (st', Ok (getSwundle services st' id)).

(** [initSwundle(swundle)] reads [swundle.id] before anything else. *)
Definition initStored (swundle : option Swundle) : Promise (option Swundle) :=
  match swundle with
  | Some swundle => initSwundle services swundle
  | None => reject (ErrorObj "Cannot read property 'id' of undefined")
  end.

Definition createSwundle (newSwaps : list Swap) : Promise (option Swundle) :=
  do id <- newUuid services ;
  catch (do swaps <- promiseAll addSwap newSwaps ;
         do swundle <- addSwundle id swaps ;
         initStored swundle)
    (fun e => resolve None).

End Create.

(** The browser window: the interval ids registered under
    [window.faast.intervals], by key, and the intervals that are running. *)
Record Window : Type := mkWindow {
  intervals : list (string * list N);
  running : gset N
}.

Definition clearInterval (a : N) (w : Window) : Window :=
  mkWindow (intervals w) (running w ∖ {[ a ]}).

Definition clearAllIntervals (w : Window) : Window :=
  fold_left (fun w entry => fold_left (fun w a => clearInterval a w) (snd entry) w)
    (intervals w) w.

Definition dismissLatestSwundle (services : Services (World := Window)) : Promise unit :=
  fun st =>
    match getLatestSwundle services st with
    | Some latest =>
        dispatch (SwundleDismissed (swundleId latest))
          (mkState (actions st) (clearAllIntervals (world st)))
    | None => (st, Ok tt)
    end.

End SwundleLifecycle.

(** ** More concrete data *)

Module Cases.

Import Data Swundle SwundleLifecycle Examples.

(** An account with two mature and two immature UTXOs. *)
Definition savings : Bitcore.AccountInfo :=
  Bitcore.mkAccount
    [Bitcore.mkUtxo 70000 8 "a1f0" 0 [0%nat; 1%nat];
     Bitcore.mkUtxo 30000 12 "b2e1" 1 [0%nat; 2%nat];
     Bitcore.mkUtxo 90000 2 "c3d2" 0 [0%nat; 3%nat];
     Bitcore.mkUtxo 20000 4 "d4c3" 0 [1%nat; 0%nat]]
    1 ["mChange0"; "mChange1"].

(** What paying 95000 from [savings] gives: the two mature UTXOs are spent. *)
Definition payment : list Bitcore.TxOutput := [Bitcore.mkOutput "mDeposit" 95000].

Definition consolidated : Bitcore.PaymentTx :=
  Bitcore.mkPaymentTx
    [Bitcore.mkUtxo 30000 12 "b2e1" 1 [0%nat; 2%nat];
     Bitcore.mkUtxo 70000 8 "a1f0" 0 [0%nat; 1%nat]]
    [Bitcore.mkOutput "mDeposit" 95000]
    [Bitcore.mkScriptOutput (Some "mDeposit") 95000;
     Bitcore.mkScriptOutput (Some "mChange1") 1260]
    3740 1260 (Some [1%nat; 1%nat]) (Some "mChange1") false.

(** What sending the whole balance of [drained] gives. *)
Definition swept : Bitcore.PaymentTx :=
  Bitcore.mkPaymentTx [Bitcore.mkUtxo 50000 10 "f3a1" 0 [0%nat; 4%nat]]
    [Bitcore.mkOutput "mDeposit" 47740]
    [Bitcore.mkScriptOutput (Some "mDeposit") 47740]
    2260 0 None None false.

Definition tooMuch : list Bitcore.TxOutput := [Bitcore.mkOutput "mDeposit" 200000].

Definition bitcoin : Asset := mkAsset "BTC" false EmptyString 8.

Definition priced : Ethereum.TxOptions :=
  Ethereum.mkTxOptions None (Some 5%N) (Some 2000000000%N) (Some 21000%N) None.


(** A node that reports no ether and five token units. *)
Definition etherBalance (address : string) : Result Thrown N := Ok 0%N.
Definition tokenCall (contract data : string) : Result Thrown N := Ok 5%N.
Definition balanceData (address : string) : string := ("0x70a08231" +:+ address)%string.
Definition wholeUnits (balance decimals : N) : BigNumber := Q2Qc (Z.of_N balance # 1).
Definition node : EthereumWallet.Node :=
  EthereumWallet.mkNode etherBalance tokenCall balanceData wholeUnits.

Definition completed : Swap :=
  mkSwap (Some "s9") "w-eth" "ETH" (Q2Qc 1) None "BTC" "1Receive" None
    (Some (mkOrder "0xdep" "complete" Undefined 0)) None Undefined Undefined.

Definition broke : Swap :=
  mkSwap (Some "s8") "w-eth" "ETH" (Q2Qc 1) None "BTC" "1Receive" None
    None None (Str "Insufficient Funds for gas * price + value") (Str "sendTransaction").

Definition v1Sends : list Send := [mkSend "w-eth" "ETH" [entry "BTC"; entry "BTC"]].

Definition swapped : Swundle := mkSwundle "sw-1" 0 [second; first] false.

Definition keep (swap : Swap) : Promise (World := unit) Swap := resolve swap.

(** A window with two polling intervals registered and a third interval
    running that is not. *)
Definition window : Window :=
  mkWindow [("swap", [1%N; 2%N]); ("tx", [3%N])] {[ 1%N; 3%N; 9%N ]}.

Definition browser : Services (World := Window) :=
  mkServices
    (fun _ => wallets)
    (fun id => Err (ErrorObj ("Unknown wallet " +:+ id)))
    (fun _ => ether)
    (fun _ _ _ _ => reject (ErrorObj "not supported"))
    (fun _ _ => None)
    (fun _ => Some overdrawn)
    resolve resolve resolve resolve
    (fun swap _ => resolve swap)
    (fun _ => resolve tt)
    (fun w => ("1b9d6bcd-bbfd-4b2d", w))
    (fun _ => 1541030400000%N).

End Cases.

(** * Properties *)

(** ** The UTXO selector *)

Section BitcoreFacts.

Import Bitcore.

Variable estimateTxFee : Z -> nat -> nat -> bool -> Z.

Lemma sumValues_from (l : list UtxoInfo) (z : Z) :
  fold_left (fun total u => total + value u) l z = z + sumValues l.
Proof.
  unfold sumValues. revert z.
  induction l as [|u l IH]; intros z; simpl; [lia|].
  rewrite (IH (z + value u)), (IH (0 + value u)). lia.
Qed.

Lemma sumValues_snoc (l : list UtxoInfo) (u : UtxoInfo) :
  sumValues (l ++ [u]) = sumValues l + value u.
Proof.
  unfold sumValues. rewrite fold_left_app. reflexivity.
Qed.

Lemma sumAmounts_from (l : list TxOutput) (z : Z) :
  fold_left (fun total o => total + amount o) l z = z + sumAmounts l.
Proof.
  unfold sumAmounts. revert z.
  induction l as [|o l IH]; intros z; simpl; [lia|].
  rewrite (IH (z + amount o)), (IH (0 + amount o)). lia.
Qed.

Lemma sumAmounts_cons (o : TxOutput) (l : list TxOutput) :
  sumAmounts (o :: l) = amount o + sumAmounts l.
Proof.
  unfold sumAmounts at 1. simpl. rewrite sumAmounts_from. lia.
Qed.

Lemma clone_outputs (l : list TxOutput) :
  List.map (fun o => mkOutput (address o) (amount o)) l = l.
Proof.
  induction l as [|[a v] l IH]; simpl; [reflexivity|]. now rewrite IH.
Qed.

Lemma selectInputs_consistent feeRate outputCount outputTotal segwit l :
  forall st, selectionConsistent outputTotal st ->
    selectionConsistent outputTotal
      (selectInputs estimateTxFee feeRate outputCount outputTotal segwit l st).
Proof.
  induction l as [|u l IH]; intros st [Hin Hfee]; simpl.
  - split; assumption.
  - match goal with |- context [if ?c then _ else _] => destruct c end.
    + split; simpl; [rewrite sumValues_snoc; lia | reflexivity].
    + apply IH. split; simpl; [rewrite sumValues_snoc; lia | reflexivity].
Qed.

(** Either the loop stopped on enough input value, or it consumed every UTXO. *)
Lemma selectInputs_stops_or_exhausts feeRate outputCount outputTotal segwit l :
  forall st,
    let st' := selectInputs estimateTxFee feeRate outputCount outputTotal segwit l st in
    (l <> [] /\ selInputTotal st' >= selAmountWithFee st')
    \/ selInputUtxos st' = selInputUtxos st ++ l.
Proof.
  induction l as [|u l IH]; intros st; simpl.
  - right. now rewrite app_nil_r.
  - match goal with |- context [if ?c then _ else _] => destruct c eqn:Hc end.
    + left. split; [discriminate|]. simpl. lia.
    + match goal with |- context [selectInputs _ _ _ _ _ l ?s] => destruct (IH s) as [[_ H]|H] end.
      * left. split; [discriminate|]. exact H.
      * right. rewrite H. simpl. now rewrite <- app_assoc.
Qed.

Lemma selection_consistent account outputCount outputTotal feeRate segwit :
  selectionConsistent outputTotal
    (selection estimateTxFee account outputCount outputTotal feeRate segwit).
Proof.
  apply selectInputs_consistent. split; simpl; [reflexivity | lia].
Qed.

Lemma buildPaymentTx_unfold account outs feeRate segwit dust :
  buildPaymentTx estimateTxFee account outs feeRate segwit dust =
  let sel := selection estimateTxFee account (length outs + 1) (sumAmounts outs) feeRate segwit in
  match adjustForFee sel outs (sumAmounts outs) dust with
  | Err e => Err e
  | Ok adj =>
      let change := selInputTotal sel - adjAmountWithFee adj in
      if change >? dust then
        Ok (mkPaymentTx (selInputUtxos sel) (adjOutputs adj)
              (List.map toScript (adjOutputs adj)
                 ++ [mkScriptOutput (nth_error (changeAddresses account) (changeIndex account)) change])
              (selFee sel) change (Some [1%nat; changeIndex account])
              (nth_error (changeAddresses account) (changeIndex account)) segwit)
      else
        Ok (mkPaymentTx (selInputUtxos sel) (adjOutputs adj)
              (List.map toScript (adjOutputs adj))
              (selFee sel + change) 0 None None segwit)
  end.
Proof.
  unfold buildPaymentTx. rewrite clone_outputs. reflexivity.
Qed.

(** What the insufficient-funds block leaves behind when it does not throw:
    the outputs sum to [outputTotal], [amountWithFee] is [outputTotal] plus
    the fee, and it no longer exceeds the input total. *)
Lemma adjustForFee_ok sel outs dust adj :
  selectionConsistent (sumAmounts outs) sel ->
  adjustForFee sel outs (sumAmounts outs) dust = Ok adj ->
  sumAmounts (adjOutputs adj) = adjOutputTotal adj
  /\ adjAmountWithFee adj = adjOutputTotal adj + selFee sel
  /\ adjAmountWithFee adj <= selInputTotal sel.
Proof.
  intros [_ Hfee] H. unfold adjustForFee in H.
  destruct (Z.gtb_spec (selAmountWithFee sel) (selInputTotal sel)) as [Hgt|Hle].
  - destruct (Z.eqb_spec (sumAmounts outs) (selInputTotal sel)) as [Heq|]; [|discriminate].
    destruct outs as [|o rest]; simpl in H; [discriminate|].
    destruct (Z.leb_spec (amount o - selFee sel) dust); [discriminate|].
    injection H as <-. simpl. rewrite !sumAmounts_cons in *. simpl. lia.
  - injection H as <-. simpl. lia.
Qed.

Lemma buildPaymentTx_accounting account outs feeRate segwit dust tx :
  buildPaymentTx estimateTxFee account outs feeRate segwit dust = Ok tx ->
  sumValues (inputUtxos tx) = sumAmounts (outputs tx) + fee tx + change tx
  /\ 0 <= change tx.
Proof.
  rewrite buildPaymentTx_unfold. cbv zeta.
  pose proof (selection_consistent account (length outs + 1) (sumAmounts outs) feeRate segwit) as Hc.
  destruct (adjustForFee _ outs (sumAmounts outs) dust) as [adj|e] eqn:Hadj; [|discriminate].
  destruct (adjustForFee_ok _ _ _ _ Hc Hadj) as (Hsum & Hawf & Hle).
  destruct Hc as [Hin _].
  destruct (Z.gtb_spec (selInputTotal (selection estimateTxFee account (length outs + 1)
              (sumAmounts outs) feeRate segwit) - adjAmountWithFee adj) dust);
    intros Htx; injection Htx as <-; simpl; lia.
Qed.

(** C2: whenever [buildPaymentTx] returns instead of throwing, the value of the
    selected input UTXOs is at least the sum of the returned outputs plus the
    returned fee. *)
Theorem buildPaymentTx_inputs_cover_outputs_and_fee account outs feeRate segwit dust tx :
  buildPaymentTx estimateTxFee account outs feeRate segwit dust = Ok tx ->
  sumValues (inputUtxos tx) >= sumAmounts (outputs tx) + fee tx.
Proof.
  intros H. destruct (buildPaymentTx_accounting _ _ _ _ _ _ H). lia.
Qed.

(** C3: when the inputs do not cover outputs plus fee and the output total is
    exactly the value of the selected inputs (all of them), the fee is taken
    from the first output, and the build throws exactly when the reduced first
    output is at or below the dust threshold; when the output total differs,
    the build throws the not-enough-UTXOs error. *)
Theorem buildPaymentTx_send_all account outs feeRate segwit dust :
  let sel := selection estimateTxFee account (length outs + 1) (sumAmounts outs) feeRate segwit in
  let build := buildPaymentTx estimateTxFee account outs feeRate segwit dust in
  selAmountWithFee sel > selInputTotal sel ->
  selInputUtxos sel = sortUtxos (utxos account)
  /\ (sumAmounts outs <> selInputTotal sel -> build = Err NotEnoughUtxos)
  /\ (sumAmounts outs = selInputTotal sel ->
      forall o rest, outs = o :: rest ->
        let adjusted := amount o - selFee sel in
        (isErr build = true <-> adjusted <= dust)
        /\ (adjusted <= dust -> build = Err FirstOutputBelowDust)
        /\ (adjusted > dust ->
            exists tx, build = Ok tx
              /\ outputs tx = mkOutput (address o) adjusted :: rest
              /\ fee tx = selFee sel
              /\ inputUtxos tx = selInputUtxos sel)).
Proof.
  intros sel build Hgt.
  assert (Hb : build = buildPaymentTx estimateTxFee account outs feeRate segwit dust) by reflexivity.
  rewrite buildPaymentTx_unfold in Hb. cbv zeta in Hb. fold sel in Hb.
  assert (Hadj : adjustForFee sel outs (sumAmounts outs) dust =
                 if sumAmounts outs =? selInputTotal sel then
                   match outs with
                   | [] => Err NoFirstOutput
                   | o :: rest =>
                       if amount o - selFee sel <=? dust then Err FirstOutputBelowDust
                       else Ok (mkAdjusted (mkOutput (address o) (amount o - selFee sel) :: rest)
                                  (sumAmounts outs - selFee sel) (sumAmounts outs))
                   end
                 else Err NotEnoughUtxos).
  { unfold adjustForFee.
    destruct (Z.gtb_spec (selAmountWithFee sel) (selInputTotal sel)); [|lia].
    destruct (sumAmounts outs =? selInputTotal sel); [|reflexivity].
    destruct outs; reflexivity. }
  rewrite Hadj in Hb. clear Hadj.
  split; [|split].
  - subst sel. unfold selection in *.
    destruct (selectInputs_stops_or_exhausts feeRate (length outs + 1) (sumAmounts outs)
                segwit (sortUtxos (utxos account)) (mkSelection 0 (sumAmounts outs + 0) [] 0))
      as [[_ H]|H]; [lia | exact H].
  - intros Hne. rewrite Hb.
    destruct (Z.eqb_spec (sumAmounts outs) (selInputTotal sel)); [contradiction | reflexivity].
  - intros Heq o rest ->. intros adjusted. fold adjusted in Hb.
    rewrite <- Heq, Z.eqb_refl in Hb.
    destruct (Z.leb_spec adjusted dust) as [Hle|Hlt].
    + rewrite Hb. simpl. repeat split; auto; lia.
    + cbn [adjOutputs adjAmountWithFee] in Hb. rewrite Z.sub_diag in Hb.
      destruct (0 >? dust); rewrite Hb; simpl;
        (split; [split; [discriminate | lia] | split; [lia|]]);
        intros _; eexists; (split; [reflexivity|]); simpl; repeat split; lia.
Qed.

(** C6: with change = input total - (output total + computed fee), a change
    above the dust threshold is emitted as one extra output to
    [changeAddresses[changeIndex]] and reported with its address and path;
    otherwise nothing is emitted, the change goes into the fee and address and
    path are null.  No emitted change is at or below the dust threshold. *)
Theorem buildPaymentTx_change_or_fold account outs feeRate segwit dust tx :
  buildPaymentTx estimateTxFee account outs feeRate segwit dust = Ok tx ->
  let computedFee :=
    selFee (selection estimateTxFee account (length outs + 1) (sumAmounts outs) feeRate segwit) in
  let c := sumValues (inputUtxos tx) - (sumAmounts (outputs tx) + computedFee) in
  let changeAddr := nth_error (changeAddresses account) (changeIndex account) in
  (c > dust ->
     outputScript tx = List.map toScript (outputs tx) ++ [mkScriptOutput changeAddr c]
     /\ change tx = c /\ fee tx = computedFee
     /\ changeAddress tx = changeAddr
     /\ changePath tx = Some [1%nat; changeIndex account])
  /\ (c <= dust ->
     outputScript tx = List.map toScript (outputs tx)
     /\ change tx = 0 /\ fee tx = computedFee + c
     /\ changeAddress tx = None /\ changePath tx = None)
  /\ (forall extra, outputScript tx = List.map toScript (outputs tx) ++ extra ->
       Forall (fun so => scriptAmount so > dust) extra).
Proof.
  rewrite buildPaymentTx_unfold. cbv zeta.
  pose proof (selection_consistent account (length outs + 1) (sumAmounts outs) feeRate segwit) as Hc.
  set (sel := selection estimateTxFee account (length outs + 1) (sumAmounts outs) feeRate segwit) in *.
  destruct (adjustForFee sel outs (sumAmounts outs) dust) as [adj|e] eqn:Hadj; [|discriminate].
  destruct (adjustForFee_ok _ _ _ _ Hc Hadj) as (Hsum & Hawf & Hle).
  destruct Hc as [Hin _].
  destruct (Z.gtb_spec (selInputTotal sel - adjAmountWithFee adj) dust) as [Hgt|Hngt];
    intros Htx; injection Htx as <-; cbn [inputUtxos outputs outputScript fee change changeAddress changePath].
  - assert (Hch : sumValues (selInputUtxos sel) - (sumAmounts (adjOutputs adj) + selFee sel)
                  = selInputTotal sel - adjAmountWithFee adj) by lia.
    rewrite Hch. split; [|split].
    + intros _. repeat split.
    + intros Hcd. lia.
    + intros extra Hx. apply app_inv_head in Hx. subst extra.
      constructor; [simpl; lia | constructor].
  - assert (Hch : sumValues (selInputUtxos sel) - (sumAmounts (adjOutputs adj) + selFee sel)
                  = selInputTotal sel - adjAmountWithFee adj) by lia.
    rewrite Hch. split; [|split].
    + intros Hcd. lia.
    + intros _. repeat split.
    + intros extra Hx. rewrite <- (app_nil_r (List.map toScript (adjOutputs adj))) in Hx at 1.
      apply app_inv_head in Hx. subst extra. constructor.
Qed.

End BitcoreFacts.

(** ** Status derivation *)

Section SwapStatusFacts.

Import Data SwapStatus.

Ltac by_order_and_tx o r t :=
  destruct o as [o|]; simpl; [|reflexivity];
  destruct (truthy (orderError o)); simpl; [reflexivity|];
  destruct (String.eqb (status o) "failed"); simpl; [reflexivity|];
  destruct (String.eqb (status o) "cancelled"); simpl; [reflexivity|];
  destruct (String.eqb (status o) "complete"); simpl; [reflexivity|];
  destruct r; simpl; [|reflexivity];
  destruct t as [t|]; simpl; [|reflexivity];
  destruct (receipt t); simpl; [reflexivity|];
  destruct (truthy (sendingError t)); simpl; [reflexivity|];
  destruct (sending t); simpl; [reflexivity|];
  destruct (sent t); simpl; [reflexivity|];
  destruct (truthy (signingError t)); simpl; [reflexivity|];
  destruct (signing t); simpl; [reflexivity|];
  destruct (signed t); simpl; [reflexivity|];
  destruct (signingSupported t); reflexivity.

Lemma getSwapStatus_priority (swap : Swap) :
  getSwapStatus swap = statusByPriority swap.
Proof.
  unfold statusByPriority, getSwapStatus.
  destruct swap as [i w sy u rw rs ra r o t e et].
  unfold errorRules, orderTerminalRules, pendingRules, whenOrder, whenTx, noReceipt.
  cbn [swapError order rate tx app firstMatch].
  destruct e as [|e|].
  - simpl. by_order_and_tx o r t.
  - generalize (includes "insufficient funds" (toLowerCase e)). intros inc.
    destruct e as [|c e].
    + simpl. by_order_and_tx o r t.
    + cbn [truthy andb guard]. destruct inc; reflexivity.
  - reflexivity.
Qed.

Lemma getSwapStatus_reads (a b : Swap) :
  sameStatusFields a b -> getSwapStatus a = getSwapStatus b.
Proof.
  intros (He & Het & Ho & Hr & Ht).
  unfold getSwapStatus, getSwapFriendlyError.
  rewrite He, Het, Ho, Ht.
  destruct (rate a), (rate b); try reflexivity.
  - destruct Hr as [_ Hr]. discriminate (Hr eq_refl).
  - destruct Hr as [Hr _]. discriminate (Hr eq_refl).
Qed.

(** C5: the status is a function of the field values alone (two swaps that
    agree on the fields read get the same status, code included), and it is
    the first matching rule in the order: swap error, terminal order states,
    pending sub-states, processing. *)
Theorem getSwapStatus_pure_first_match :
  (forall swap, getSwapStatus swap = statusByPriority swap)
  /\ (forall a b, sameStatusFields a b ->
        getSwapStatus a = getSwapStatus b
        /\ code (getSwapStatus a) = code (getSwapStatus b))
  /\ (forall swap, truthy (swapError swap) = true -> code (getSwapStatus swap) = "failed"%string).
Proof.
  split; [exact getSwapStatus_priority|split].
  - intros a b H. rewrite (getSwapStatus_reads a b H). split; reflexivity.
  - intros swap H. unfold getSwapStatus. rewrite H.
    destruct (swapError swap); try reflexivity.
    destruct (includes _ _); reflexivity.
Qed.

End SwapStatusFacts.

(** ** Swundle actions *)

Section SwundleFacts.

Import Data Swundle.

Context {World : Type}.
Variable services : Services (World := World).

Lemma initSwundle_run (swundle : Swundle) (st : State) :
  initSwundle services swundle st =
  match initChain services swundle (after st (InitStarted (swundleId swundle))) with
  | (st1, Ok s) => (st1, Ok s)
  | (st1, Err e) => (after st1 (InitFailed (swundleId swundle) (messageOrSelf e)), Ok None)
  end.
Proof.
  unfold initSwundle, andThen, catch, dispatch, resolve, after. simpl.
  destruct (initChain services swundle _) as [st1 [s|e]]; reflexivity.
Qed.





(** *** Grouping *)

Lemma assocGet_upsert_eq {V} (k : string) (f : option V -> V) (m : list (string * V)) :
  assocGet k (upsert k f m) = Some (f (assocGet k m)).
Proof.
  induction m as [|[k' v] m IH]; simpl.
  - now rewrite String.eqb_refl.
  - destruct (String.eqb k k') eqn:E; simpl; rewrite E; [reflexivity | exact IH].
Qed.

Lemma assocGet_upsert_ne {V} (k k0 : string) (f : option V -> V) (m : list (string * V)) :
  k0 <> k -> assocGet k0 (upsert k f m) = assocGet k0 m.
Proof.
  intros Hne. induction m as [|[k' v] m IH]; simpl.
  - destruct (String.eqb_spec k0 k); [contradiction | reflexivity].
  - destruct (String.eqb_spec k k') as [->|]; simpl.
    + destruct (String.eqb_spec k0 k'); [contradiction | reflexivity].
    + destruct (String.eqb k0 k'); [reflexivity | exact IH].
Qed.

Lemma upsert_keys {V} (k : string) (f : option V -> V) (m : list (string * V)) :
  List.map fst (upsert k f m) =
  match assocGet k m with
  | Some _ => List.map fst m
  | None => List.map fst m ++ [k]
  end.
Proof.
  induction m as [|[k' v] m IH]; simpl; [reflexivity|].
  destruct (String.eqb k k'); simpl; [reflexivity|].
  rewrite IH. destruct (assocGet k m); reflexivity.
Qed.

Lemma assocGet_None {V} (k : string) (m : list (string * V)) :
  assocGet k m = None <-> ~ In k (List.map fst m).
Proof.
  induction m as [|[k' v] m IH]; simpl; [tauto|].
  destruct (String.eqb_spec k k') as [->|Hne].
  - split; [discriminate | intros H; exfalso; apply H; now left].
  - rewrite IH. split; [intros H [Heq|Hin]; [congruence | tauto] | tauto].
Qed.

Lemma assocGet_In {V} (k : string) (v : V) (m : list (string * V)) :
  assocGet k m = Some v -> In (k, v) m.
Proof.
  induction m as [|[k' v'] m IH]; simpl; [discriminate|].
  destruct (String.eqb_spec k k') as [->|Hne].
  - intros H; injection H as ->. now left.
  - intros H. right. auto.
Qed.

Lemma In_assocGet {V} (k : string) (v : V) (m : list (string * V)) :
  NoDup (List.map fst m) -> In (k, v) m -> assocGet k m = Some v.
Proof.
  induction m as [|[k' v'] m IH]; simpl; [tauto|].
  intros Hnd [Heq|Hin].
  - injection Heq as -> ->. now rewrite String.eqb_refl.
  - inversion Hnd as [|? ? Hnotin Hnd']; subst.
    destruct (String.eqb_spec k k') as [->|Hne].
    + exfalso. apply Hnotin. apply list_elem_of_In.
      change k' with (fst (k', v)). now apply in_map.
    + auto.
Qed.

Lemma upsert_NoDup {V} (k : string) (f : option V -> V) (m : list (string * V)) :
  NoDup (List.map fst m) -> NoDup (List.map fst (upsert k f m)).
Proof.
  intros Hnd. rewrite upsert_keys. destruct (assocGet k m) eqn:E; [exact Hnd|].
  apply assocGet_None in E.
  apply NoDup_app; repeat split; auto.
  - intros x Hx Hk. apply list_elem_of_In in Hx. apply list_elem_of_In in Hk.
    destruct Hk as [<-|[]]. contradiction.
  - apply NoDup_singleton.
Qed.







(** *** Aggregate transactions *)





(** *** Nonce chaining *)







(** *** Restoration *)

Lemma lessThanOrEqualTo_spec (a b : BigNumber) :
  lessThanOrEqualTo a b = true <-> (a <= b)%Qc.
Proof.
  unfold lessThanOrEqualTo, Qcle, Qle. apply Z.leb_le.
Qed.

Lemma truthy_Str (x : string) : truthy (Str x) = true <-> x <> EmptyString.
Proof.
  destruct x; simpl; split; congruence.
Qed.

Lemma existsb_eqb_false (x : string) (l : list string) :
  existsb (String.eqb x) l = false <-> x ∉ l.
Proof.
  induction l as [|y l IH]; simpl.
  - split; [intros _ H; inversion H | reflexivity].
  - rewrite orb_false_iff, IH, not_elem_of_cons.
    destruct (String.eqb_spec x y); split; intros [? ?]; split; auto; congruence.
Qed.

Lemma validReceive_spec (receive : Receive) :
  validReceive receive = true <-> receiveOk receive.
Proof.
  unfold validReceive, receiveOk. cbn [existsb].
  destruct (truthy (Str (receiveSym receive))) eqn:Hs; cbn [negb].
  - apply truthy_Str in Hs.
    destruct (lessThanOrEqualTo (unit_ receive) ZERO) eqn:Hu.
    + apply lessThanOrEqualTo_spec in Hu. split; [discriminate|].
      intros (_ & Hlt & _). exfalso. unfold ZERO in Hu.
      exact (Qclt_not_le _ _ Hlt Hu).
    + assert (Hlt : (0 < unit_ receive)%Qc).
      { apply Qcnot_le_lt. intros Hle. apply lessThanOrEqualTo_spec in Hle.
        unfold ZERO in Hu. congruence. }
      destruct (receiveOrder receive) as [o|].
      * split; [intros _|reflexivity]. split; [exact Hs|]. split; [exact Hlt | discriminate].
      * split; [discriminate|]. intros (_ & _ & H). contradiction.
  - split; [discriminate|]. intros (Hne & _). apply truthy_Str in Hne. congruence.
Qed.

Lemma validSends_spec (sends : list Send) (seen : list string) :
  validSends sends seen = true <->
  (forall send, In send sends -> sendSym send ∉ seen)
  /\ NoDup (List.map sendSym sends)
  /\ Forall sendOk sends.
Proof.
  revert seen. induction sends as [|send sends IH]; intros seen; cbn [validSends List.map].
  - split; [intros _; repeat split; [intros ? [] | constructor | constructor] | reflexivity].
  - destruct (truthy (Str (sendSym send))) eqn:Hs; cbn [negb].
    2: { split; [discriminate|]. intros (_ & _ & Hall). inversion Hall as [|? ? [Hne _] _]; subst.
         apply truthy_Str in Hne. congruence. }
    apply truthy_Str in Hs.
    destruct (existsb (String.eqb (sendSym send)) seen) eqn:Hseen.
    { split; [discriminate|]. intros (Hfresh & _).
      assert (Hn : sendSym send ∉ seen) by (apply Hfresh; now left).
      apply existsb_eqb_false in Hn. congruence. }
    apply existsb_eqb_false in Hseen.
    destruct (forallb validReceive (list_ send)) eqn:Hrec.
    + rewrite IH. rewrite forallb_forall in Hrec.
      assert (Hok : sendOk send).
      { split; [exact Hs|]. apply List.Forall_forall. intros r Hr.
        apply validReceive_spec. now apply Hrec. }
      split.
      * intros (Hfresh & Hnd & Hall). repeat split.
        -- intros s [<-|Hin]; [exact Hseen|].
           intros Hin'. apply (Hfresh s Hin). apply elem_of_app. now left.
        -- apply NoDup_cons. split; [|exact Hnd].
           intros Hin. apply list_elem_of_In, in_map_iff in Hin.
           destruct Hin as (s & Heq & Hin). apply (Hfresh s Hin).
           apply elem_of_app. right. rewrite Heq. now apply list_elem_of_singleton.
        -- constructor; assumption.
      * intros (Hfresh & Hnd & Hall). apply NoDup_cons in Hnd. destruct Hnd as [Hnotin Hnd].
        inversion Hall; subst. repeat split; auto.
        intros s Hin Hin'. apply elem_of_app in Hin'. destruct Hin' as [Hin'|Hin'].
        -- apply (Hfresh s); [now right | exact Hin'].
        -- apply list_elem_of_singleton in Hin'. apply Hnotin.
           apply list_elem_of_In, in_map_iff. exists s. split; [exact Hin'|exact Hin].
    + split; [discriminate|]. intros (_ & _ & Hall).
      inversion Hall as [|? ? [_ Hr] _]; subst.
      assert (Ht : forallb validReceive (list_ send) = true).
      { apply forallb_forall. intros r Hin. apply validReceive_spec.
        rewrite List.Forall_forall in Hr. now apply Hr. }
      congruence.
Qed.

Lemma v1SwapList_flat (sends : list Send) :
  v1SwapList sends = flat_map (fun send => List.map (v1Swap send) (list_ send)) sends.
Proof.
  unfold v1SwapList.
  assert (H : forall acc, fold_left (fun swapList send =>
                 swapList ++ List.map (v1Swap send) (list_ send)) sends acc
             = acc ++ flat_map (fun send => List.map (v1Swap send) (list_ send)) sends).
  { induction sends as [|send sends IH]; intros acc; simpl.
    - now rewrite app_nil_r.
    - rewrite IH. now rewrite <- app_assoc. }
  apply (H []).
Qed.


Lemma syntheticCreatedDate_first (swapList : list StoredSwap) (now : N) :
  syntheticCreatedDate swapList now = default now (head swapList ≫= orderCreated).
Proof.
  destruct swapList as [|swap rest]; [reflexivity|]. simpl. unfold orderCreated.
  destruct (storedOrder swap) as [o|]; [|reflexivity].
  destruct (created o =? 0)%N; reflexivity.
Qed.

(** C8, as the code has it: when swaps are restored and no swundle map comes
    with them, the swundle that is added carries the creation date of the
    first restored swap's order if that swap has one, and the current time
    otherwise; it lists one swap id per restored swap.  With a restored
    swundle map, or without restored swaps, no swundle is added. *)
Theorem synthetic_swundle_created_date (state : Persisted) (st st1 : State)
    (restored : option (list StoredSwap)) (hasSwundle : bool) :
  restoreSwapList services state st = (st1, Ok (restored, hasSwundle)) ->
  match restored, hasSwundle with
  | Some swapList, false =>
      let now := dateNow services (world st1) in
      let createdDate := default now (head swapList ≫= orderCreated) in
      restoreSwundles services state st =
      restoreLatestSwundlePolling services
        (mkState (actions st1
                    ++ [SwundleAdded (fst (uuid services (world st1))) createdDate
                          (List.map storedSwapId swapList)])
           (snd (uuid services (world st1))))
  | _, _ =>
      restoreSwundles services state st = restoreLatestSwundlePolling services st1
  end.
Proof.
  intros H. unfold restoreSwundles, andThen. rewrite H.
  destruct restored as [swapList|]; [destruct hasSwundle|]; try reflexivity.
  unfold newUuid, dispatch, after. cbn [world actions].
  destruct (uuid services (world st1)) as [id w]. cbn [fst snd world actions].
  now rewrite syntheticCreatedDate_first.
Qed.


(** *** Balance sufficiency *)

Lemma isNegative_lt0 (a : BigNumber) : isNegative a = true <-> (a < 0)%Qc.
Proof.
  unfold isNegative, Qclt, Qlt. simpl. rewrite Z.ltb_lt. lia.
Qed.

Lemma isNegative_minus (b x : BigNumber) : isNegative (minus b x) = true <-> (b < x)%Qc.
Proof.
  rewrite isNegative_lt0. unfold minus.
  rewrite (Qclt_minus_iff (b - x) 0), (Qclt_minus_iff b x).
  replace (0 + - (b - x))%Qc with (x + - b)%Qc by ring. reflexivity.
Qed.

Lemma insufficient_spec (allWallets : list (string * WalletState)) (w s : string)
    (t : SendTotals) :
  insufficient allWallets w s t = true <-> (balanceOf allWallets w s < totalOf (Some t))%Qc.
Proof.
  unfold insufficient. apply isNegative_minus.
Qed.

Lemma getTotals_mergeAt (w s : string) (f : option SendTotals -> SendTotals)
    (totals : Totals) (w' s' : string) :
  getTotals (mergeAt w s f totals) w' s' =
  if String.eqb w w' && String.eqb s s' then Some (f (getTotals totals w s))
  else getTotals totals w' s'.
Proof.
  unfold getTotals, mergeAt.
  destruct (String.eqb_spec w w') as [<-|Hw]; simpl.
  - rewrite assocGet_upsert_eq. simpl.
    destruct (String.eqb_spec s s') as [<-|Hs].
    + rewrite assocGet_upsert_eq. destruct (assocGet w totals); reflexivity.
    + rewrite assocGet_upsert_ne by congruence. destruct (assocGet w totals); reflexivity.
  - now rewrite assocGet_upsert_ne by congruence.
Qed.

Lemma upsert_Forall {V} (P : V -> Prop) (k : string) (f : option V -> V)
    (m : list (string * V)) :
  Forall (fun kv => P (snd kv)) m ->
  P (f None) ->
  (forall v, P v -> P (f (Some v))) ->
  Forall (fun kv => P (snd kv)) (upsert k f m).
Proof.
  intros Hm Hnone Hsome. induction m as [|[k' v] m IH]; simpl.
  - constructor; [exact Hnone | constructor].
  - inversion Hm as [|? ? Hv Hm']; subst. simpl in Hv.
    destruct (String.eqb k k'); constructor; simpl; auto.
Qed.

Lemma mergeAt_keysDistinct (w s : string) (f : option SendTotals -> SendTotals)
    (totals : Totals) :
  keysDistinct totals -> keysDistinct (mergeAt w s f totals).
Proof.
  intros [Hout Hin]. split.
  - now apply upsert_NoDup.
  - unfold mergeAt.
    apply (upsert_Forall (fun m => NoDup (List.map fst m))); auto.
    + simpl. apply NoDup_singleton.
    + intros v Hv. simpl. now apply upsert_NoDup.
Qed.

Lemma entries_getTotals (totals : Totals) (w s : string) (t : SendTotals) :
  keysDistinct totals ->
  (In (w, s, t) (entries totals) <-> getTotals totals w s = Some t).
Proof.
  intros [Hout Hin]. unfold entries, getTotals. rewrite in_flat_map. split.
  - intros ([w' m] & Hwm & Hst). apply in_map_iff in Hst.
    destruct Hst as ([s' t'] & Heq & Hst). simpl in Heq. injection Heq as -> -> ->.
    rewrite (In_assocGet w m totals Hout Hwm). simpl.
    apply In_assocGet; [|exact Hst].
    rewrite List.Forall_forall in Hin. exact (Hin (w, m) Hwm).
  - destruct (assocGet w totals) as [m|] eqn:Hm; simpl; [|discriminate].
    intros Hs. exists (w, m). split; [now apply assocGet_In|].
    apply in_map_iff. exists (s, t). split; [reflexivity | now apply assocGet_In].
Qed.

Lemma totalOf_mergeSum (totals : Totals) (w s : string) (src : SendTotals) (w' s' : string) :
  totalOf (getTotals (mergeSum totals w s src) w' s') =
  plus (totalOf (getTotals totals w' s'))
    (if String.eqb w w' && String.eqb s s' then totalOf (Some src) else ZERO).
Proof.
  unfold mergeSum. rewrite getTotals_mergeAt.
  destruct (String.eqb_spec w w') as [<-|]; cbn [andb];
    [destruct (String.eqb_spec s s') as [<-|]; cbn [andb]|].
  - destruct src as [[a|] [f|]]; destruct (getTotals totals w s) as [[[x|] [y|]]|];
      cbn [totalOf totalAmount totalFeeAmount sumInto mergeLeaf default];
      unfold plus, ZERO, id; ring.
  - unfold plus, ZERO; ring.
  - unfold plus, ZERO; ring.
Qed.

Lemma isSome_mergeAt (w s : string) (f : option SendTotals -> SendTotals)
    (totals : Totals) (w' s' : string) :
  is_Some (getTotals (mergeAt w s f totals) w' s') <->
  (w = w' /\ s = s') \/ is_Some (getTotals totals w' s').
Proof.
  rewrite getTotals_mergeAt.
  destruct (String.eqb_spec w w'); simpl; [destruct (String.eqb_spec s s'); simpl|].
  - split; [now left | intros _; eexists; reflexivity].
  - split; [now right | intros [[_ ?]|?]; [contradiction | assumption]].
  - split; [now right | intros [[? _]|?]; [contradiction | assumption]].
Qed.

Lemma live_cons (swap : Swap) (swaps : list Swap) :
  live (swap :: swaps) = if truthy (swapError swap) then live swaps else swap :: live swaps.
Proof.
  unfold live. simpl. destruct (truthy (swapError swap)); reflexivity.
Qed.

Lemma charged_cons (w s : string) (swap : Swap) (swaps : list Swap) :
  charged w s (swap :: swaps) <->
  (truthy (swapError swap) = false
   /\ exists t, tx swap = Some t /\ sendWalletId swap = w
                /\ (sendSymbol swap = s \/ (feeAmount t <> None /\ feeSymbol t = s)))
  \/ charged w s swaps.
Proof.
  unfold charged. rewrite live_cons. destruct (truthy (swapError swap)).
  - split; [intros H; now right | intros [[H _]|H]; [discriminate | exact H]].
  - split.
    + intros (x & t & [<-|Hin] & Ht & Hw & Hs).
      * left. split; [reflexivity|]. now exists t.
      * right. now exists x, t.
    + intros [[_ (t & Ht & Hw & Hs)]|(x & t & Hin & H)].
      * exists swap, t. split; [now left | auto].
      * exists x, t. split; [now right | exact H].
Qed.

(** After the [forEach], the totals hold, for every wallet and symbol, what
    the swaps without error send and pay in fees there, and have an entry
    exactly for the pairs that are charged. *)
Lemma walletSendTotals_sums (swaps : list Swap) :
  forall totals0,
    keysDistinct totals0 ->
    (forall swap, In swap (live swaps) -> tx swap <> None) ->
    exists totals,
      walletSendTotals swaps totals0 = Ok totals
      /\ keysDistinct totals
      /\ forall w s,
          totalOf (getTotals totals w s)
          = plus (totalOf (getTotals totals0 w s)) (spent w s swaps)
          /\ (is_Some (getTotals totals w s) <->
              is_Some (getTotals totals0 w s) \/ charged w s swaps).
Proof.
  induction swaps as [|swap swaps IH]; intros totals0 Hkeys Htx.
  - exists totals0. split; [reflexivity|]. split; [exact Hkeys|]. intros w s. split.
    + unfold spent, live, plus, ZERO. simpl. ring.
    + split; [now left | intros [H|(x & t & [] & _)]; exact H].
  - cbn [walletSendTotals]. unfold addSwap.
    rewrite live_cons in Htx.
    destruct (truthy (swapError swap)) eqn:Herr.
    + destruct (IH totals0 Hkeys Htx) as (totals & Hrun & Hk & Hsum).
      exists totals. split; [exact Hrun|]. split; [exact Hk|]. intros w s.
      destruct (Hsum w s) as [Htot Hsome]. split.
      * rewrite Htot. unfold spent. now rewrite live_cons, Herr.
      * rewrite Hsome, charged_cons. rewrite Herr.
        split; [intros [H|H]; auto | intros [H|[[H _]|H]]; auto; discriminate].
    + destruct (tx swap) as [t|] eqn:Ht.
      2: { exfalso. apply (Htx swap); [now left | exact Ht]. }
      assert (Htx' : forall swap', In swap' (live swaps) -> tx swap' <> None)
        by (intros; apply Htx; now right).
      set (totals1 := mergeSum totals0 (sendWalletId swap) (sendSymbol swap)
                        (mkSendTotals (Some (txAmount t)) None)).
      assert (Hk1 : keysDistinct totals1) by now apply mergeAt_keysDistinct.
      destruct (feeAmount t) as [fee|] eqn:Hfee.
      * set (totals2 := mergeSum totals1 (sendWalletId swap) (feeSymbol t)
                          (mkSendTotals None (Some fee))).
        assert (Hk2 : keysDistinct totals2) by now apply mergeAt_keysDistinct.
        destruct (IH totals2 Hk2 Htx') as (totals & Hrun & Hk & Hsum).
        exists totals. split; [exact Hrun|]. split; [exact Hk|]. intros w s.
        destruct (Hsum w s) as [Htot Hsome]. split.
        -- rewrite Htot. subst totals2 totals1.
           rewrite !totalOf_mergeSum.
           unfold spent. rewrite live_cons, Herr. cbn [fold_right].
           unfold sentIn, feeIn. rewrite Ht, Hfee.
           destruct (_ && _), (_ && _);
             cbn [totalOf totalAmount totalFeeAmount default]; unfold plus, ZERO, id; ring.
        -- rewrite Hsome, charged_cons, Herr. subst totals2 totals1.
           unfold mergeSum. rewrite !isSome_mergeAt. split.
           ++ intros [[[Hw Hs]|[[Hw Hs]|H]]|H].
              ** right. left. split; [reflexivity|]. exists t. rewrite Hfee.
                 split; [exact Ht|]. split; [exact Hw|].
                 right. split; [discriminate | exact Hs].
              ** right. left. split; [reflexivity|]. exists t.
                 split; [exact Ht|]. split; [exact Hw|]. left. exact Hs.
              ** left. exact H.
              ** right. right. exact H.
           ++ intros [H|[[_ (t' & Ht' & Hw & Hs)]|H]].
              ** left. right. right. exact H.
              ** rewrite Ht in Ht'. injection Ht' as <-. destruct Hs as [Hs|[_ Hs]].
                 --- left. right. left. split; assumption.
                 --- left. left. split; assumption.
              ** right. exact H.
      * destruct (IH totals1 Hk1 Htx') as (totals & Hrun & Hk & Hsum).
        exists totals. split; [exact Hrun|]. split; [exact Hk|]. intros w s.
        destruct (Hsum w s) as [Htot Hsome]. split.
        -- rewrite Htot. subst totals1. rewrite totalOf_mergeSum.
           unfold spent. rewrite live_cons, Herr. cbn [fold_right].
           unfold sentIn, feeIn. rewrite Ht, Hfee.
           destruct (_ && _);
             cbn [totalOf totalAmount totalFeeAmount default]; unfold plus, ZERO, id; ring.
        -- rewrite Hsome, charged_cons, Herr. subst totals1.
           unfold mergeSum. rewrite !isSome_mergeAt. split.
           ++ intros [[[Hw Hs]|H]|H].
              ** right. left. split; [reflexivity|]. exists t.
                 split; [exact Ht|]. split; [exact Hw|]. left. exact Hs.
              ** left. exact H.
              ** right. right. exact H.
           ++ intros [H|[[_ (t' & Ht' & Hw & Hs)]|H]].
              ** left. right. exact H.
              ** rewrite Ht in Ht'. injection Ht' as <-. destruct Hs as [Hs|[Hs _]].
                 --- left. left. split; assumption.
                 --- rewrite Hfee in Hs. contradiction.
              ** right. exact H.
Qed.

Lemma totals_of_swundle (swaps : list Swap) :
  (forall swap, In swap (live swaps) -> tx swap <> None) ->
  exists totals,
    walletSendTotals swaps [] = Ok totals
    /\ (forall w s t,
          In (w, s, t) (entries totals) ->
          totalOf (Some t) = spent w s swaps /\ charged w s swaps)
    /\ (forall w s, charged w s swaps -> exists t, In (w, s, t) (entries totals)).
Proof.
  intros Htx.
  assert (Hnil : keysDistinct []) by (split; constructor).
  destruct (walletSendTotals_sums swaps [] Hnil Htx) as (totals & Hrun & Hk & Hsum).
  exists totals. split; [exact Hrun|]. split.
  - intros w s t Hin. apply (entries_getTotals totals w s t Hk) in Hin.
    destruct (Hsum w s) as [Htot Hsome]. rewrite Hin in Htot, Hsome. split.
    + rewrite Htot. change (getTotals [] w s) with (@None SendTotals).
      cbn [totalOf]. unfold plus, ZERO. ring.
    + destruct (proj1 Hsome (ex_intro _ t eq_refl)) as [[x Hx]|H]; [discriminate | exact H].
  - intros w s Hch. destruct (Hsum w s) as [_ Hsome].
    destruct (proj2 Hsome (or_intror Hch)) as [t Ht].
    exists t. now apply (entries_getTotals totals w s t Hk).
Qed.

Lemma check_passes (swundle : Swundle) (st : State) :
  (forall swap, In swap (live (swaps swundle)) -> tx swap <> None) ->
  (forall w s, charged w s (swaps swundle) ->
     (spent w s (swaps swundle) <= balanceOf (getAllWallets services st) w s)%Qc) ->
  checkSufficientBalances services swundle st = Ok swundle.
Proof.
  intros Htx Hall. unfold checkSufficientBalances.
  destruct (totals_of_swundle _ Htx) as (totals & Hrun & Hent & _). rewrite Hrun.
  destruct (List.find _ (entries totals)) as [[[w s] t]|] eqn:Hfind; [|reflexivity].
  apply find_some in Hfind. destruct Hfind as [Hin Hbad]. simpl in Hbad.
  apply Hent in Hin. destruct Hin as (Htot & Hch).
  apply insufficient_spec in Hbad. rewrite Htot in Hbad.
  exfalso. exact (Qcle_not_lt _ _ (Hall w s Hch) Hbad).
Qed.

Lemma check_throws (swundle : Swundle) (st : State) :
  (forall swap, In swap (live (swaps swundle)) -> tx swap <> None) ->
  (exists w s, charged w s (swaps swundle)
     /\ (balanceOf (getAllWallets services st) w s < spent w s (swaps swundle))%Qc) ->
  exists w s,
    charged w s (swaps swundle)
    /\ (balanceOf (getAllWallets services st) w s < spent w s (swaps swundle))%Qc
    /\ checkSufficientBalances services swundle st =
       Err (ErrorObj (insufficientMessage s (labelOf (getAllWallets services st) w))).
Proof.
  intros Htx (w & s & Hch & Hlt). unfold checkSufficientBalances.
  destruct (totals_of_swundle _ Htx) as (totals & Hrun & Hent & Hhas). rewrite Hrun.
  destruct (List.find _ (entries totals)) as [[[w' s'] t']|] eqn:Hfind.
  - apply find_some in Hfind. destruct Hfind as [Hin Hbad]. simpl in Hbad.
    apply Hent in Hin. destruct Hin as (Htot & Hch').
    apply insufficient_spec in Hbad. rewrite Htot in Hbad.
    exists w', s'. repeat split; auto.
  - exfalso. destruct (Hhas w s Hch) as (t & Hin).
    pose proof (find_none _ _ Hfind _ Hin) as Hgood. simpl in Hgood.
    apply Hent in Hin. destruct Hin as (Htot & _).
    assert (Hbad : insufficient (getAllWallets services st) w s t = true).
    { apply insufficient_spec. now rewrite Htot. }
    congruence.
Qed.

Lemma initSwundle_fails_on_check (swundle : Swundle) (st st1 : State)
    (refreshed : list Swap) (e : Thrown) :
  promiseAll (fun swap => andThen (updateMarketInfo services swap)
                            (checkSufficientDeposit services))
    (swaps swundle) (after st (InitStarted (swundleId swundle))) = (st1, Ok refreshed) ->
  checkSufficientBalances services (withSwaps swundle refreshed) st1 = Err e ->
  initSwundle services swundle st =
  (after st1 (InitFailed (swundleId swundle) (messageOrSelf e)), Ok None).
Proof.
  intros Hrefresh Hcheck. rewrite initSwundle_run.
  unfold initChain. unfold andThen at 1.
  change (fun swap => andThen (updateMarketInfo services swap)
                        (fun swap' => checkSufficientDeposit services swap'))
    with (fun swap => andThen (updateMarketInfo services swap)
                        (checkSufficientDeposit services)).
  rewrite Hrefresh. unfold andThen at 1. unfold resolve at 1.
  unfold andThen at 1. unfold fromState. now rewrite Hcheck.
Qed.



End SwundleFacts.

(** ** The UTXO order and the shape of the selection *)

Section SelectorFacts.

Import Bitcore BitcoreService.

Variable estimateTxFee : Z -> nat -> nat -> bool -> Z.

Lemma insertBy_permutation cmp x l : Permutation (insertBy cmp x l) (x :: l).
Proof.
  induction l as [|y l IH]; simpl; [reflexivity|].
  destruct (cmp x y <=? 0); [reflexivity|].
  rewrite IH. apply perm_swap.
Qed.

Lemma sortBy_permutation cmp l : Permutation (sortBy cmp l) l.
Proof.
  induction l as [|x l IH]; simpl; [constructor|].
  rewrite insertBy_permutation. now constructor.
Qed.

Lemma partition_permutation (f : UtxoInfo -> bool) l :
  Permutation (List.filter f l ++ List.filter (fun u => negb (f u)) l) l.
Proof.
  induction l as [|x l IH]; simpl; [constructor|].
  destruct (f x); simpl.
  - now constructor.
  - rewrite <- Permutation_middle. now constructor.
Qed.

(** Sorting with a comparator that is transitive and total. *)
Lemma insertBy_sorted cmp x l :
  (forall a b c, cmp a b <= 0 -> cmp b c <= 0 -> cmp a c <= 0) ->
  (forall a b, 0 < cmp a b -> cmp b a <= 0) ->
  StronglySorted (fun a b => cmp a b <= 0) l ->
  StronglySorted (fun a b => cmp a b <= 0) (insertBy cmp x l).
Proof.
  intros Htrans Htotal.
  induction 1 as [|y l Hl IH Hy]; simpl.
  - repeat constructor.
  - destruct (Z.leb_spec (cmp x y) 0) as [Hle|Hgt].
    + constructor; [now constructor|].
      constructor; [exact Hle|].
      eapply List.Forall_impl; [|exact Hy]. simpl. intros b Hb. now apply (Htrans x y b).
    + constructor; [exact IH|].
      assert (Hp : Permutation (x :: l) (insertBy cmp x l))
        by (symmetry; apply insertBy_permutation).
      eapply Permutation_Forall; [exact Hp|].
      constructor; [now apply Htotal | exact Hy].
Qed.

Lemma sortBy_sorted cmp l :
  (forall a b c, cmp a b <= 0 -> cmp b c <= 0 -> cmp a c <= 0) ->
  (forall a b, 0 < cmp a b -> cmp b a <= 0) ->
  StronglySorted (fun a b => cmp a b <= 0) (sortBy cmp l).
Proof.
  intros Htrans Htotal.
  induction l as [|x l IH]; simpl; [constructor|].
  now apply insertBy_sorted.
Qed.

Lemma StronglySorted_impl (R R' : UtxoInfo -> UtxoInfo -> Prop) l :
  (forall a b, R a b -> R' a b) -> StronglySorted R l -> StronglySorted R' l.
Proof.
  intros HR. induction 1 as [|y l Hl IH Hy]; constructor; [exact IH|].
  eapply List.Forall_impl; [|exact Hy]. intros b. apply HR.
Qed.

Lemma sortBy_Forall (P : UtxoInfo -> Prop) cmp l :
  Forall P l -> Forall P (sortBy cmp l).
Proof.
  intros H. eapply Permutation_Forall; [|exact H].
  symmetry. apply sortBy_permutation.
Qed.

Lemma sortUtxos_perm (utxoList : list UtxoInfo) :
  Permutation (sortUtxos utxoList) utxoList.
Proof.
  unfold sortUtxos. rewrite !sortBy_permutation. apply partition_permutation.
Qed.

Lemma sortUtxos_perm_nil (utxoList : list UtxoInfo) :
  sortUtxos utxoList = [] -> utxoList = [].
Proof.
  intros E. pose proof (sortUtxos_perm utxoList) as H. rewrite E in H.
  now apply Permutation_nil.
Qed.

(** X1: [sortUtxos] only reorders: its result is a permutation of the UTXO
    list it is given, so no UTXO is dropped or duplicated before the
    selection runs. *)
Theorem sortUtxos_permutation (utxoList : list UtxoInfo) :
  Permutation (sortUtxos utxoList) utxoList.
Proof.
  apply sortUtxos_perm.
Qed.

(** X2: [sortUtxos] returns the UTXOs with at least six confirmations first,
    in ascending order of value, followed by the others in descending order
    of confirmations. *)
Theorem sortUtxos_order (utxoList : list UtxoInfo) :
  exists matureList immatureList,
    sortUtxos utxoList = matureList ++ immatureList
    /\ Forall mature matureList
    /\ Forall (fun u => ~ mature u) immatureList
    /\ StronglySorted (fun a b => value a <= value b) matureList
    /\ StronglySorted (fun a b => confirmations a >= confirmations b) immatureList.
Proof.
  eexists _, _. split; [reflexivity|]. repeat apply conj.
  - apply sortBy_Forall. apply List.Forall_forall. intros u Hu.
    apply List.filter_In in Hu as [_ Hu]. unfold mature.
    destruct (Z.geb_spec (confirmations u) 6); [lia | discriminate].
  - apply sortBy_Forall. apply List.Forall_forall. intros u Hu.
    apply List.filter_In in Hu as [_ Hu]. unfold mature.
    destruct (Z.geb_spec (confirmations u) 6); [discriminate | lia].
  - eapply StronglySorted_impl; [|apply sortBy_sorted]; simpl; intros; lia.
  - eapply StronglySorted_impl; [|apply sortBy_sorted]; simpl; intros; lia.
Qed.


Lemma sumValues_cons (u : UtxoInfo) (l : list UtxoInfo) :
  sumValues (u :: l) = value u + sumValues l.
Proof.
  unfold sumValues at 1. simpl. rewrite sumValues_from. lia.
Qed.

Lemma sumValues_app (l l' : list UtxoInfo) :
  sumValues (l ++ l') = sumValues l + sumValues l'.
Proof.
  induction l as [|u l IH]; simpl; [reflexivity|].
  rewrite !sumValues_cons, IH. lia.
Qed.

Lemma sumValues_permutation (l l' : list UtxoInfo) :
  Permutation l l' -> sumValues l = sumValues l'.
Proof.
  induction 1; rewrite ?sumValues_cons; lia.
Qed.

Lemma sumValues_firstn (k : nat) (l : list UtxoInfo) :
  Forall (fun u => 0 <= value u) l ->
  0 <= sumValues (firstn k l) <= sumValues l.
Proof.
  intros H. revert k. induction H as [|u l Hu Hl IH]; intros [|k]; simpl;
    rewrite ?sumValues_cons; try (cbv; intuition congruence).
  - specialize (IH (length l)). rewrite firstn_all in IH. change (sumValues []) with 0. lia.
  - specialize (IH k). lia.
Qed.

(** The loop, started with some inputs already pushed, pushes a prefix of the
    remaining UTXOs: the shortest non-empty one that reaches the amount with
    the fee for that many inputs, or all of them. *)
Lemma selectInputs_prefix feeRate outputCount outputTotal segwit l :
  forall st,
    selInputTotal st = sumValues (selInputUtxos st) ->
    let st' := selectInputs estimateTxFee feeRate outputCount outputTotal segwit l st in
    exists m,
      (m <= length l)%nat
      /\ selInputUtxos st' = selInputUtxos st ++ firstn m l
      /\ (forall j, (0 < j < m)%nat ->
            sumValues (selInputUtxos st ++ firstn j l)
            < outputTotal
              + estimateTxFee feeRate (length (selInputUtxos st) + j) outputCount segwit)
      /\ (m = 0%nat -> l = [] /\ st' = st)
      /\ ((0 < m)%nat ->
            selFee st'
            = estimateTxFee feeRate (length (selInputUtxos st) + m) outputCount segwit)
      /\ ((m < length l)%nat -> outputTotal + selFee st' <= sumValues (selInputUtxos st')).
Proof.
  induction l as [|u l IH]; intros st Hst; simpl.
  - exists 0%nat. simpl. rewrite app_nil_r. repeat apply conj; auto; lia.
  - destruct (Z.geb_spec (selInputTotal st + value u)
                (outputTotal + estimateTxFee feeRate (length (selInputUtxos st) + 1)
                                 outputCount segwit)) as [Hstop|Hgo].
    + exists 1%nat. simpl. repeat apply conj; auto; try lia.
      intros _. rewrite sumValues_snoc. lia.
    + match goal with |- context [selectInputs _ _ _ _ _ l ?s] => set (st1 := s) end.
      destruct (IH st1) as (m & Hm & Hin & Hmin & Hzero & Hfee & Hstop).
      { subst st1. simpl. rewrite sumValues_snoc. lia. }
      assert (Hlen : forall j, (length (selInputUtxos st1) + j
                                = length (selInputUtxos st) + S j)%nat).
      { intros j. subst st1. simpl. rewrite length_app. simpl. lia. }
      exists (S m). simpl. repeat apply conj.
      * lia.
      * rewrite Hin. subst st1. simpl. now rewrite <- app_assoc.
      * intros [|[|j]] Hj; [lia| |].
        -- simpl. rewrite sumValues_snoc. lia.
        -- assert (Hj' : (0 < S j < m)%nat) by lia.
           specialize (Hmin (S j) Hj'). rewrite Hlen in Hmin.
           subst st1. simpl in Hmin. rewrite <- app_assoc in Hmin. exact Hmin.
      * discriminate.
      * intros _. destruct m as [|m].
        -- destruct (Hzero eq_refl) as [_ ->]. reflexivity.
        -- rewrite Hfee by lia. now rewrite Hlen.
      * intros Hlt. apply Hstop. lia.
Qed.

Lemma selectInputs_fee_nonneg feeRate outputCount outputTotal segwit l :
  (forall n m, 0 <= estimateTxFee feeRate n m segwit) ->
  forall st, 0 <= selFee st ->
    0 <= selFee (selectInputs estimateTxFee feeRate outputCount outputTotal segwit l st).
Proof.
  intros Hest. induction l as [|u l IH]; intros st Hst; simpl; [exact Hst|].
  match goal with |- context [if ?c then _ else _] => destruct c end.
  - simpl. apply Hest.
  - apply IH. simpl. apply Hest.
Qed.

(** The selected inputs are a prefix of the sorted UTXO list, and the shortest
    one that pays for the outputs and the fee estimated for that many inputs;
    with at least one UTXO, the fee is the estimate for the number of inputs
    selected. *)
Lemma selection_prefix account outputCount outputTotal feeRate segwit :
  let sel := selection estimateTxFee account outputCount outputTotal feeRate segwit in
  let sorted := sortUtxos (utxos account) in
  let k := length (selInputUtxos sel) in
  selInputUtxos sel = firstn k sorted
  /\ (forall j, (0 < j < k)%nat ->
        sumValues (firstn j sorted)
        < outputTotal + estimateTxFee feeRate j outputCount segwit)
  /\ ((k < length sorted)%nat ->
        outputTotal + estimateTxFee feeRate k outputCount segwit
        <= sumValues (firstn k sorted))
  /\ (utxos account <> [] ->
        (0 < k)%nat /\ selFee sel = estimateTxFee feeRate k outputCount segwit).
Proof.
  cbv zeta. unfold selection.
  destruct (selectInputs_prefix feeRate outputCount outputTotal segwit
              (sortUtxos (utxos account)) (mkSelection 0 (outputTotal + 0) [] 0) eq_refl)
    as (m & Hm & Hin & Hmin & Hzero & Hfee & Hstop).
  simpl in Hin, Hmin, Hfee.
  assert (Hk : length (selInputUtxos (selectInputs estimateTxFee feeRate outputCount
                 outputTotal segwit (sortUtxos (utxos account))
                 (mkSelection 0 (outputTotal + 0) [] 0))) = m).
  { rewrite Hin, length_firstn. lia. }
  rewrite Hk. repeat apply conj.
  - exact Hin.
  - exact Hmin.
  - intros Hlt. rewrite <- Hin, <- Hfee; [now apply Hstop|].
    destruct m; [|lia]. destruct (Hzero eq_refl) as [E _]. rewrite E in Hlt. simpl in Hlt. lia.
  - intros Hne.
    assert (Hpos : (0 < m)%nat).
    { destruct m; [|lia]. destruct (Hzero eq_refl) as [E _].
      pose proof (sortUtxos_perm_nil (utxos account) E). contradiction. }
    split; [exact Hpos | now apply Hfee].
Qed.

Lemma buildPaymentTx_inputs account outs feeRate segwit dust tx :
  buildPaymentTx estimateTxFee account outs feeRate segwit dust = Ok tx ->
  inputUtxos tx
  = selInputUtxos (selection estimateTxFee account (length outs + 1) (sumAmounts outs)
                     feeRate segwit).
Proof.
  rewrite buildPaymentTx_unfold. cbv zeta.
  destruct (adjustForFee _ outs (sumAmounts outs) dust) as [adj|e]; [|discriminate].
  destruct (_ >? dust); intros [= <-]; reflexivity.
Qed.

(** X3: the inputs of a transaction that [buildPaymentTx] returns are a prefix
    of the sorted UTXO list, and the shortest one that pays for the desired
    outputs and the fee estimated for that many inputs (and one output more
    than desired): every shorter non-empty prefix falls short, and when UTXOs
    are left over the selected ones cover the outputs and that fee. *)
Theorem buildPaymentTx_shortest_prefix account outs feeRate segwit dust tx :
  buildPaymentTx estimateTxFee account outs feeRate segwit dust = Ok tx ->
  let sorted := sortUtxos (utxos account) in
  let k := length (inputUtxos tx) in
  let needed j := sumAmounts outs + estimateTxFee feeRate j (length outs + 1) segwit in
  inputUtxos tx = firstn k sorted
  /\ (forall j, (0 < j < k)%nat -> sumValues (firstn j sorted) < needed j)
  /\ ((k < length sorted)%nat -> needed k <= sumValues (inputUtxos tx)).
Proof.
  intros Htx. cbv zeta. rewrite (buildPaymentTx_inputs _ _ _ _ _ _ Htx).
  destruct (selection_prefix account (length outs + 1) (sumAmounts outs) feeRate segwit)
    as (Hin & Hshort & Hstop & _).
  split; [exact Hin|]. split; [exact Hshort|].
  intros Hlt. rewrite Hin at 2. now apply Hstop.
Qed.

Lemma selection_fee account outputCount outputTotal feeRate segwit :
  utxos account <> [] ->
  let sel := selection estimateTxFee account outputCount outputTotal feeRate segwit in
  selFee sel = estimateTxFee feeRate (length (selInputUtxos sel)) outputCount segwit.
Proof.
  intros Hne. cbv zeta. unfold selection.
  destruct (selectInputs_prefix feeRate outputCount outputTotal segwit
              (sortUtxos (utxos account)) (mkSelection 0 (outputTotal + 0) [] 0) eq_refl)
    as (m & Hm & Hin & _ & Hzero & Hfee & _).
  simpl in Hin, Hfee. rewrite Hin, length_firstn.
  replace (Nat.min m (length (sortUtxos (utxos account)))) with m by lia.
  apply Hfee. destruct m; [|lia]. destruct (Hzero eq_refl) as [E _].
  pose proof (sortUtxos_perm_nil (utxos account) E). contradiction.
Qed.

Lemma scriptTotal_app (l l' : list ScriptOutput) :
  scriptTotal (l ++ l') = scriptTotal l + scriptTotal l'.
Proof.
  induction l as [|o l IH]; simpl; [reflexivity|]. rewrite IH. lia.
Qed.

Lemma scriptTotal_toScript (l : list TxOutput) :
  scriptTotal (List.map toScript l) = sumAmounts l.
Proof.
  induction l as [|o l IH]; simpl; [reflexivity|].
  rewrite sumAmounts_cons, IH. reflexivity.
Qed.

(** X4: in a returned transaction the outputs handed to the builder (the
    change output included) and the returned fee add up to the value of the
    selected inputs.  With at least one UTXO and a non-negative dust
    threshold, the returned fee is at least the estimate for the selected
    inputs and exceeds it by at most the dust threshold. *)
Theorem buildPaymentTx_conserves_value account outs feeRate segwit dust tx :
  buildPaymentTx estimateTxFee account outs feeRate segwit dust = Ok tx ->
  scriptTotal (outputScript tx) + fee tx = sumValues (inputUtxos tx)
  /\ (utxos account <> [] -> 0 <= dust ->
      let estimate :=
        estimateTxFee feeRate (length (inputUtxos tx)) (length outs + 1) segwit in
      estimate <= fee tx <= estimate + dust).
Proof.
  intros Htx.
  pose proof (buildPaymentTx_accounting estimateTxFee _ _ _ _ _ _ Htx) as [Hacc Hchange].
  revert Htx. rewrite buildPaymentTx_unfold. cbv zeta.
  pose proof (selection_consistent estimateTxFee account (length outs + 1) (sumAmounts outs)
                feeRate segwit) as Hc.
  pose proof (fun H => selection_fee account (length outs + 1) (sumAmounts outs)
                feeRate segwit H) as Hfee.
  cbv zeta in Hfee.
  destruct (adjustForFee _ outs (sumAmounts outs) dust) as [adj|e] eqn:Hadj; [|discriminate].
  destruct (adjustForFee_ok _ _ _ _ Hc Hadj) as (Hsum & Hawf & Hle).
  destruct (Z.gtb_spec (selInputTotal (selection estimateTxFee account (length outs + 1)
              (sumAmounts outs) feeRate segwit) - adjAmountWithFee adj) dust);
    intros Htx; injection Htx as <-; simpl in *.
  - rewrite scriptTotal_app, scriptTotal_toScript. simpl. split; [lia|].
    intros Hne Hdust. rewrite <- Hfee by exact Hne. lia.
  - rewrite scriptTotal_toScript. split; [lia|].
    intros Hne Hdust. rewrite <- Hfee by exact Hne. lia.
Qed.

(** X5: when the fee estimate and the UTXO values are non-negative, asking for
    more than the account holds always throws the not-enough-UTXOs error. *)
Theorem buildPaymentTx_insufficient_funds account outs feeRate segwit dust :
  (forall n m, 0 <= estimateTxFee feeRate n m segwit) ->
  Forall (fun u => 0 <= value u) (utxos account) ->
  sumValues (utxos account) < sumAmounts outs ->
  buildPaymentTx estimateTxFee account outs feeRate segwit dust = Err NotEnoughUtxos.
Proof.
  intros Hest Hval Hlt.
  rewrite buildPaymentTx_unfold. cbv zeta.
  pose proof (selection_consistent estimateTxFee account (length outs + 1) (sumAmounts outs)
                feeRate segwit) as [Hin Hawf].
  assert (Hfee : 0 <= selFee (selection estimateTxFee account (length outs + 1)
                           (sumAmounts outs) feeRate segwit)).
  { unfold selection. apply selectInputs_fee_nonneg; [exact Hest | simpl; lia]. }
  assert (Htot : selInputTotal (selection estimateTxFee account (length outs + 1)
                           (sumAmounts outs) feeRate segwit) <= sumValues (utxos account)).
  { rewrite Hin. unfold selection.
    destruct (selectInputs_prefix feeRate (length outs + 1) (sumAmounts outs) segwit
                (sortUtxos (utxos account)) (mkSelection 0 (sumAmounts outs + 0) [] 0) eq_refl)
      as (m & _ & -> & _).
    simpl. rewrite <- (sumValues_permutation _ _ (sortUtxos_perm (utxos account))).
    apply sumValues_firstn.
    eapply Permutation_Forall; [|exact Hval]. symmetry. apply sortUtxos_perm. }
  unfold adjustForFee.
  destruct (Z.gtb_spec (selAmountWithFee (selection estimateTxFee account (length outs + 1)
              (sumAmounts outs) feeRate segwit))
              (selInputTotal (selection estimateTxFee account (length outs + 1)
              (sumAmounts outs) feeRate segwit))); [|lia].
  destruct (Z.eqb_spec (sumAmounts outs) (selInputTotal (selection estimateTxFee account
              (length outs + 1) (sumAmounts outs) feeRate segwit))); [lia|reflexivity].
Qed.

(** X6: [buildPaymentTx] returns the desired outputs as given, except when the
    whole balance is sent: then every UTXO of the account is an input, there
    is no change, and only the amount of the first output is lowered, by the
    returned fee. *)
Theorem buildPaymentTx_outputs_kept account outs feeRate segwit dust tx :
  buildPaymentTx estimateTxFee account outs feeRate segwit dust = Ok tx ->
  outputs tx = outs
  \/ (Permutation (inputUtxos tx) (utxos account)
      /\ sumAmounts outs = sumValues (utxos account)
      /\ change tx = 0
      /\ exists o rest,
           outs = o :: rest
           /\ outputs tx = mkOutput (address o) (amount o - fee tx) :: rest).
Proof.
  rewrite buildPaymentTx_unfold. cbv zeta.
  pose proof (selection_consistent estimateTxFee account (length outs + 1) (sumAmounts outs)
                feeRate segwit) as [Hin Hawf].
  pose proof (selectInputs_stops_or_exhausts estimateTxFee feeRate (length outs + 1)
                (sumAmounts outs) segwit (sortUtxos (utxos account))
                (mkSelection 0 (sumAmounts outs + 0) [] 0)) as Hex.
  cbv zeta in Hex. fold (selection estimateTxFee account (length outs + 1) (sumAmounts outs)
                           feeRate segwit) in Hex.
  revert Hin Hawf Hex.
  generalize (selection estimateTxFee account (length outs + 1) (sumAmounts outs) feeRate segwit).
  intros sel Hin Hawf Hex. unfold adjustForFee.
  destruct (Z.gtb_spec (selAmountWithFee sel) (selInputTotal sel)) as [Hgt|Hle].
  - destruct (Z.eqb_spec (sumAmounts outs) (selInputTotal sel)) as [Heq|]; [|discriminate].
    destruct outs as [|o rest]; cbn [subtractFromFirst]; [discriminate|].
    cbn [firstAmount amount].
    destruct (Z.leb_spec (amount o - selFee sel) dust); [discriminate|].
    cbn [adjOutputs adjAmountWithFee].
    assert (Hall : Permutation (selInputUtxos sel) (utxos account)).
    { destruct Hex as [[_ Hstop]|Hall]; [lia|].
      rewrite Hall. simpl. apply sortUtxos_perm. }
    assert (Hsum : sumAmounts (o :: rest) = sumValues (utxos account)).
    { rewrite Heq, Hin. now apply sumValues_permutation. }
    replace (selInputTotal sel - sumAmounts (o :: rest)) with 0 by lia.
    destruct (Z.gtb_spec 0 dust); intros Htx; injection Htx as <-; simpl; right;
      (split; [exact Hall|]); (split; [exact Hsum|]); (split; [reflexivity|]);
      exists o, rest; (split; [reflexivity|]); repeat f_equal; lia.
  - cbn [adjOutputs adjAmountWithFee].
    destruct (Z.gtb_spec (selInputTotal sel - selAmountWithFee sel) dust);
      intros Htx; injection Htx as <-; simpl; now left.
Qed.

End SelectorFacts.

(** ** The Bitcore instances *)

Section InstanceFacts.

Import BitcoreService.

Variable NetworkConfig : Type.
Variable getNetworkConfig : string -> NetworkConfig.

Lemma bitcoreConfigs_lookup (assetSymbol : string) :
  match bitcoreConfigs NetworkConfig getNetworkConfig !! assetSymbol with
  | Some config => symbol config = assetSymbol
                   /\ (assetSymbol = "BTC" \/ assetSymbol = "LTC")%string
  | None => assetSymbol <> "BTC"%string /\ assetSymbol <> "LTC"%string
  end.
Proof.
  unfold BitcoreService.bitcoreConfigs, configList. simpl.
  destruct (decide (assetSymbol = "LTC"%string)) as [->|Hl].
  - rewrite lookup_insert_eq. simpl. auto.
  - rewrite lookup_insert_ne by congruence.
    destruct (decide (assetSymbol = "BTC"%string)) as [->|Hb].
    + rewrite lookup_insert_eq. simpl. auto.
    + rewrite lookup_insert_ne by congruence. rewrite lookup_empty. auto.
Qed.

(** X7: [getBitcore] throws exactly for a symbol that is not cached, is not
    BTC or LTC and is not the name of a member of [Object.prototype], and then
    leaves the cache as it was.  When it returns, a second call returns the
    same value without constructing anything and the entries of the other
    symbols are untouched; an instance is constructed only when none was
    cached, and it is then the one configured for the symbol. *)
Theorem getBitcore_caches (assetSymbol : string) (reg : Registry NetworkConfig) :
  let result := getBitcore NetworkConfig getNetworkConfig assetSymbol reg in
  (isErr result.2 = true <->
     bitcoreInstances reg !! assetSymbol = None
     /\ assetSymbol <> "BTC"%string /\ assetSymbol <> "LTC"%string
     /\ inherited assetSymbol = false)
  /\ (isErr result.2 = true -> result.1 = reg)
  /\ (forall found, result.2 = Ok found ->
        getBitcore NetworkConfig getNetworkConfig assetSymbol result.1 = (result.1, Ok found)
        /\ (forall other, other <> assetSymbol ->
              bitcoreInstances result.1 !! other = bitcoreInstances reg !! other)
        /\ (result.1 = reg
            /\ (bitcoreInstances reg !! assetSymbol = None -> found = Inherited assetSymbol)
            \/ bitcoreInstances reg !! assetSymbol = None
               /\ (exists bitcore, found = Instance bitcore
                                   /\ BitcoreService.assetSymbol bitcore = assetSymbol)
               /\ constructed result.1 = constructed reg ++ [assetSymbol])).
Proof.
  cbv zeta. unfold BitcoreService.getBitcore.
  pose proof (bitcoreConfigs_lookup assetSymbol) as Hcfg.
  destruct (bitcoreInstances reg !! assetSymbol) as [cached|] eqn:Hreg; cbn [fst snd isErr].
  - split; [split; [discriminate | intros [? _]; discriminate]|].
    split; [discriminate|].
    intros found [= <-]. rewrite Hreg. split; [reflexivity|].
    split; [reflexivity|]. left. split; [reflexivity | discriminate].
  - destruct (inherited assetSymbol) eqn:Hinh; cbn [fst snd isErr].
    + split; [split; [discriminate | intros (_ & _ & _ & ?); discriminate]|].
      split; [discriminate|].
      intros found [= <-]. rewrite Hreg, ?Hinh. split; [reflexivity|].
      split; [reflexivity|]. left. auto.
    + destruct (bitcoreConfigs NetworkConfig getNetworkConfig !! assetSymbol)
        as [config|] eqn:Hc; cbn [fst snd isErr].
      * destruct Hcfg as [Hsym Hknown].
        split; [split; [discriminate | intros (_ & ? & ? & _); destruct Hknown; congruence]|].
        split; [discriminate|].
        intros found [= <-]. cbn [bitcoreInstances constructed].
        rewrite lookup_insert_eq. split; [reflexivity|].
        split; [intros other Hne; now rewrite lookup_insert_ne by congruence|].
        right. rewrite Hsym. split; [reflexivity|]. split; [|reflexivity].
        eexists. split; [reflexivity|]. exact Hsym.
      * split; [split; [intros _; tauto | reflexivity]|].
        split; [reflexivity|]. discriminate.
Qed.

End InstanceFacts.

(** ** The Ethereum wallet *)

Section EthereumFacts.

Import Data Ethereum EthereumWallet.

Variable helpers : Helpers.

Lemma orElse_Err (x : option N) (y : Result Thrown N) (e : Thrown) :
  orElse x y = Err e -> y = Err e.
Proof.
  destruct x as [n|]; simpl; [destruct (n =? 0)%N; [|discriminate]|]; auto.
Qed.

(** X8: for an asset that is neither ETH nor an ERC20 token
    [_createTransaction] rejects, with the same error whatever the network
    answers and whatever the options are.  For a supported asset a failing
    gas-price request never makes the build fail: a rejection is one of the
    gas estimate, of the transaction count, or the failure to read the
    previous transaction. *)
Theorem createTransaction_rejections (self address : string) (amount : BigNumber)
    (asset : Asset) :
  (_isAssetSupported (Some asset) = false ->
     exists e, forall web3 options,
       _createTransaction helpers web3 self address amount asset options = Err e)
  /\ (_isAssetSupported (Some asset) = true ->
      forall web3 options e,
        _createTransaction helpers web3 self address amount asset options = Err e ->
        customNonce self options = Err e
        \/ (exists txTo txValue txCallData,
              estimateGas web3 self txTo txValue txCallData = Err e)
        \/ getTransactionCount web3 self = Err e).
Proof.
  unfold _isAssetSupported, _createTransaction. split.
  - intros Hs. apply orb_false_iff in Hs as [-> ->]. eexists. intros. reflexivity.
  - intros Hs web3 options e.
    destruct (String.eqb (symbol asset) "ETH"); [|destruct (ERC20 asset); [|discriminate]];
      (destruct (customNonce self options) as [custom|e'] eqn:Hn; [|intros [= ->]; now left]);
      (destruct (orElse (optGasPrice options) _) as [p|e'] eqn:Hp;
         [|apply orElse_Err in Hp; discriminate]);
      (destruct (orElse (orOption _ _) _) as [g|e'] eqn:Hg;
         [|intros [= ->]; right; left; apply orElse_Err in Hg; eauto]);
      (destruct (orElse custom _) as [n|e'] eqn:Hc; [discriminate|]);
      intros [= ->]; right; right; now apply orElse_Err in Hc.
Qed.

Lemma orElse_given (n : N) (y : Result Thrown N) :
  n <> 0%N -> orElse (Some n) y = Ok n.
Proof.
  intros Hn. simpl. destruct (N.eqb_spec n 0); [contradiction | reflexivity].
Qed.

(** X9: when the options carry a gas price, a gas limit (as [gasLimit], or as
    [gas] when [gasLimit] is absent or 0) and a nonce, none of them 0, the
    transaction built for a supported asset uses exactly these and is the
    same whatever the network answers, a previous transaction in the options
    being ignored.  A nonce option of 0 counts as no nonce and switches the
    chaining off as well: the build is then the one made without nonce option
    and without previous transaction. *)
Theorem createTransaction_explicit_options (self address : string) (amount : BigNumber)
    (asset : Asset) (options : TxOptions) :
  (forall gasPrice gasLimit nonce,
      _isAssetSupported (Some asset) = true ->
      optGasPrice options = Some gasPrice -> gasPrice <> 0%N ->
      orOption (optGasLimit options) (optGas options) = Some gasLimit -> gasLimit <> 0%N ->
      optNonce options = Some nonce -> nonce <> 0%N ->
      exists t d,
        (forall web3 previous,
            _createTransaction helpers web3 self address amount asset
              (mkTxOptions previous (optNonce options) (optGasPrice options)
                 (optGasLimit options) (optGas options)) = Ok t)
        /\ txData t = Some d
        /\ Data.gasPrice d = gasPrice /\ gas d = gasLimit /\ Data.nonce d = nonce
        /\ feeAmount t = Some (toTxFee helpers gasLimit gasPrice))
  /\ (optNonce options = Some 0%N ->
      forall web3,
        _createTransaction helpers web3 self address amount asset options
        = _createTransaction helpers web3 self address amount asset
            (mkTxOptions None None (optGasPrice options) (optGasLimit options)
               (optGas options))).
Proof.
  split.
  - intros gasPrice gasLimit nonce Hs Hp Hp0 Hg Hg0 Hn Hn0.
    unfold _isAssetSupported in Hs. unfold _createTransaction, customNonce.
    cbn [optNonce optGasPrice optGasLimit optGas previousTx].
    rewrite Hp, Hg, Hn.
    destruct (String.eqb (symbol asset) "ETH");
      [|destruct (ERC20 asset); [|discriminate]];
      eexists _, _; (split; [intros web3 previous;
                             rewrite !orElse_given by assumption; reflexivity|]);
      cbn [txData feeAmount Data.gasPrice gas Data.nonce]; auto.
  - intros Hn web3. unfold _createTransaction, customNonce.
    cbn [optNonce optGasPrice optGasLimit optGas previousTx]. rewrite Hn. reflexivity.
Qed.



Lemma Forall2_In_l {A B} (P : A -> B -> Prop) (l : list A) (k : list B) (x : A) :
  Forall2 P l k -> In x l -> exists y, In y k /\ P x y.
Proof.
  induction 1 as [|a b l k Hab _ IH]; intros []; subst.
  - exists b. split; [now left | exact Hab].
  - destruct IH as (y & Hy & Hxy); [assumption|]. exists y. split; [now right | exact Hxy].
Qed.

Lemma Forall2_In_r {A B} (P : A -> B -> Prop) (l : list A) (k : list B) (y : B) :
  Forall2 P l k -> In y k -> exists x, In x l /\ P x y.
Proof.
  induction 1 as [|a b l k Hab _ IH]; intros []; subst.
  - exists a. split; [now left | exact Hab].
  - destruct IH as (x & Hx & Hxy); [assumption|]. exists x. split; [now right | exact Hxy].
Qed.

Lemma gt_ZERO (a : BigNumber) : gt a ZERO = true <-> (0 < a)%Qc.
Proof.
  unfold gt, ZERO, Qclt, Qlt. simpl. rewrite Z.gtb_lt. lia.
Qed.

Section BalanceFacts.

Variable node : Node.

Lemma balanceRequests_Ok (self : string) (assets : list Asset) :
  forall balances, balanceRequests node self assets = Ok balances ->
    Forall2 (fun asset sb => fst sb = symbol asset /\ _getBalance node self asset = Ok (snd sb))
      assets balances.
Proof.
  induction assets as [|asset assets IH]; simpl; intros balances.
  - intros [= <-]. constructor.
  - destruct (_getBalance node self asset) as [b|e] eqn:Hb; [|discriminate].
    destruct (balanceRequests node self assets) as [bs|e]; [|discriminate].
    intros [= <-]. constructor; [split; [reflexivity | exact Hb] | now apply IH].
Qed.

Lemma balanceRequests_Err (self : string) (assets : list Asset) (e : Thrown) :
  balanceRequests node self assets = Err e ->
  exists asset, In asset assets /\ _getBalance node self asset = Err e.
Proof.
  induction assets as [|asset assets IH]; simpl; [discriminate|].
  destruct (_getBalance node self asset) as [b|e'] eqn:Hb.
  - destruct (balanceRequests node self assets) as [bs|e']; [discriminate|].
    intros [= ->]. destruct (IH eq_refl) as (a & Ha & He). exists a. auto.
  - intros [= ->]. exists asset. auto.
Qed.

(** What the [reduce] keeps. *)
Lemma kept_balances (balances : list (string * BigNumber)) :
  forall (result : gmap string BigNumber),
    let final :=
      fold_left (fun result sb =>
                   if gt (snd sb) ZERO || String.eqb (fst sb) "ETH"
                   then <[fst sb := snd sb]> result
                   else result) balances result in
    (forall s b, final !! s = Some b ->
       result !! s = Some b
       \/ (In (s, b) balances /\ ((0 < b)%Qc \/ s = "ETH"%string)))
    /\ (forall s, is_Some (result !! s) -> is_Some (final !! s))
    /\ (forall s b, In (s, b) balances -> (0 < b)%Qc \/ s = "ETH"%string ->
          is_Some (final !! s)).
Proof.
  induction balances as [|[s0 b0] balances IH]; intros result; simpl.
  - split; [auto|]. split; [auto|]. intros s b [].
  - destruct (IH (if gt b0 ZERO || String.eqb s0 "ETH" then <[s0 := b0]> result else result))
      as (Hfrom & Hkeep & Hin).
    assert (Hcond : gt b0 ZERO || String.eqb s0 "ETH" = true
                    <-> (0 < b0)%Qc \/ s0 = "ETH"%string).
    { rewrite orb_true_iff, gt_ZERO, String.eqb_eq. reflexivity. }
    split; [|split].
    + intros s b Hs. destruct (Hfrom s b Hs) as [Hr|[Hl Hc]]; [|now right; auto].
      destruct (gt b0 ZERO || String.eqb s0 "ETH") eqn:Hk; [|now left].
      destruct (decide (s0 = s)) as [->|Hne].
      * rewrite lookup_insert_eq in Hr. injection Hr as ->.
        right. split; [now left | now apply Hcond].
      * rewrite lookup_insert_ne in Hr by exact Hne. now left.
    + intros s Hs. apply Hkeep.
      destruct (gt b0 ZERO || String.eqb s0 "ETH"); [|exact Hs].
      destruct (decide (s0 = s)) as [->|Hne].
      * rewrite lookup_insert_eq. eauto.
      * now rewrite lookup_insert_ne by exact Hne.
    + intros s b [[= -> ->]|Hl] Hc; [|now apply (Hin s b)].
      apply Hkeep. apply Hcond in Hc. rewrite Hc. rewrite lookup_insert_eq. eauto.
Qed.

Lemma balanceRequests_all_Ok (self : string) (assets : list Asset) :
  (forall asset, In asset assets -> isErr (_getBalance node self asset) = false) ->
  isErr (balanceRequests node self assets) = false.
Proof.
  induction assets as [|asset assets IH]; intros Hall; simpl; [reflexivity|].
  pose proof (Hall asset (or_introl eq_refl)) as Ha.
  destruct (_getBalance node self asset) as [b|e]; [|discriminate].
  assert (Hrest : isErr (balanceRequests node self assets) = false)
    by (apply IH; intros a Hin; apply Hall; now right).
  destruct (balanceRequests node self assets); [reflexivity | discriminate].
Qed.

(** X11: [getAllBalances] rejects exactly when one of the balance requests
    does, with the error of such a request.  Otherwise every symbol in the
    result is a supported asset listed with a balance that was read for it,
    which is positive unless the symbol is ETH; every asset with a positive
    balance is listed, and ETH is listed even when its balance is zero. *)
Theorem getAllBalances_keeps_positive_and_ETH (self : string) (assets : list Asset) :
  let result :=
    getAllBalances node self assets in
  (isErr result = false <->
     forall asset, In asset assets -> isErr (_getBalance node self asset) = false)
  /\ (forall e, result = Err e ->
        exists asset, In asset assets /\ _getBalance node self asset = Err e)
  /\ (forall balances, result = Ok balances ->
        (forall s b, balances !! s = Some b ->
           ((0 < b)%Qc \/ s = "ETH"%string)
           /\ exists asset, In asset assets /\ symbol asset = s
                            /\ _getBalance node self asset = Ok b)
        /\ (forall asset b, In asset assets -> _getBalance node self asset = Ok b ->
              (0 < b)%Qc \/ symbol asset = "ETH"%string ->
              is_Some (balances !! symbol asset))).
Proof.
  cbv zeta. unfold getAllBalances.
  pose proof (balanceRequests_all_Ok self assets) as Hconv.
  destruct (balanceRequests node self assets) as [balances|e] eqn:Hreq.
  - pose proof (balanceRequests_Ok _ _ _ Hreq) as Hall.
    destruct (kept_balances balances ∅) as (Hfrom & _ & Hin).
    split; [|split; [discriminate|]].
    + split; [|reflexivity]. intros _ asset Ha.
      destruct (Forall2_In_l _ _ _ _ Hall Ha) as (sb & _ & _ & ->). reflexivity.
    + intros ? [= <-]. split.
      * intros s b Hs. destruct (Hfrom s b Hs) as [He|[Hl Hc]].
        -- rewrite lookup_empty in He. discriminate.
        -- split; [exact Hc|].
           destruct (Forall2_In_r _ _ _ _ Hall Hl) as (asset & Ha & Hsym & Hb).
           exists asset. simpl in Hsym, Hb. auto.
      * intros asset b Ha Hb Hc.
        destruct (Forall2_In_l _ _ _ _ Hall Ha) as ([s b'] & Hl & Hsym & Hb').
        simpl in Hsym, Hb'. rewrite Hb in Hb'. injection Hb' as <-. subst s.
        now apply (Hin (symbol asset) b).
  - split; [|split; [|discriminate]].
    + split; [discriminate|]. intros Hall. apply Hconv in Hall. discriminate.
    + intros ? [= <-]. now apply balanceRequests_Err.
Qed.

End BalanceFacts.

End EthereumFacts.

(** ** The status of a swap and of a list of swaps *)

Section SwapListFacts.

Import Data SwapStatus SwapList.

Lemma append_cons (c : ascii) (s t : string) :
  (String c s +:+ t)%string = String c (s +:+ t)%string.
Proof. reflexivity. Qed.

Lemma append_nil (t : string) : (EmptyString +:+ t)%string = t.
Proof. reflexivity. Qed.

Lemma prefix_append (needle hay : string) :
  String.prefix needle hay = true <-> exists post, hay = (needle +:+ post)%string.
Proof.
  revert hay. induction needle as [|c needle IH]; intros hay.
  - split; [intros _; now exists hay | intros _; now destruct hay].
  - destruct hay as [|d hay]; simpl;
      [split; [discriminate | intros (post & H); discriminate]|].
    destruct (Ascii.ascii_dec c d) as [->|Hne].
    + rewrite IH. split; intros (post & H); exists post;
        rewrite append_cons in *; congruence.
    + split; [discriminate|]. intros (post & H). rewrite append_cons in H. congruence.
Qed.

Lemma includes_append (needle hay : string) :
  includes needle hay = true
  <-> exists pre post, hay = (pre +:+ needle +:+ post)%string.
Proof.
  induction hay as [|d hay IH].
  - cbn [includes]. destruct (String.prefix needle "") eqn:Hp.
    + split; [intros _|reflexivity]. apply prefix_append in Hp as (post & Hp).
      now exists EmptyString, post.
    + split; [discriminate|]. intros ([|c pre] & post & H); [|discriminate].
      rewrite append_nil in H.
      assert (String.prefix needle "" = true) by (apply prefix_append; eauto).
      congruence.
  - cbn [includes]. destruct (String.prefix needle (String d hay)) eqn:Hp.
    + split; [intros _|reflexivity]. apply prefix_append in Hp as (post & Hp).
      now exists EmptyString, post.
    + rewrite IH. split.
      * intros (pre & post & ->). now exists (String d pre), post.
      * intros ([|c pre] & post & H).
        -- rewrite append_nil in H.
           assert (String.prefix needle (String d hay) = true)
             by (apply prefix_append; eauto).
           congruence.
        -- rewrite append_cons in H. injection H as -> ->. eauto.
Qed.

Ltac status_cases :=
  unfold getSwapStatus;
  repeat match goal with
         | |- context [match ?x with _ => _ end] => destruct x eqn:?
         end.

(** Every status is one of the three presentations. *)
Lemma getSwapStatus_presentation (swap : Swap) :
  let st := getSwapStatus swap in
  (code st, label st, labelClass st) = ("pending", "Processing", "text-primary")%string
  \/ (code st, label st, labelClass st) = ("failed", "Failed", "text-warning")%string
  \/ (code st, label st, labelClass st) = ("complete", "Complete", "text-success")%string.
Proof.
  cbv zeta. status_cases;
    first [left; reflexivity | right; left; reflexivity | right; right; reflexivity].
Qed.

Lemma getSwapStatus_code (swap : Swap) :
  code (getSwapStatus swap) = "pending"%string
  \/ code (getSwapStatus swap) = "failed"%string
  \/ code (getSwapStatus swap) = "complete"%string.
Proof.
  destruct (getSwapStatus_presentation swap) as [H|[H|H]]; injection H; auto.
Qed.

(** X12: every status carries one of the three presentations
    pending/Processing, failed/Failed, complete/Complete, and it is complete
    exactly when the swap has no error and its order has no error and the
    status complete, whatever the transaction is. *)
Theorem getSwapStatus_complete_iff (swap : Swap) :
  let st := getSwapStatus swap in
  ((code st, label st, labelClass st) = ("pending", "Processing", "text-primary")%string
   \/ (code st, label st, labelClass st) = ("failed", "Failed", "text-warning")%string
   \/ (code st, label st, labelClass st) = ("complete", "Complete", "text-success")%string)
  /\ (code st = "complete"%string <->
      truthy (swapError swap) = false
      /\ exists o, order swap = Some o
                   /\ truthy (orderError o) = false
                   /\ status o = "complete"%string).
Proof.
  cbv zeta. split; [apply getSwapStatus_presentation|].
  status_cases; cbn [code statusPending statusFailed statusComplete createStatus];
    split; try discriminate;
    try (intros (? & ? & ? & ? & ?); congruence);
    try (intros _; split; [reflexivity|]; eexists; split; [reflexivity|];
         split; [assumption | now apply String.eqb_eq]);
    try (intros (_ & o0 & [= <-] & Ho & Hs); rewrite Hs in *;
         repeat match goal with
                | H : (_ =? _)%string = _ |- _ => vm_compute in H
                end; congruence).
Qed.

(** X13: a swap is reported with the details code insufficient_funds exactly
    when its error is a string that contains the words insufficient funds in
    whatever letter case; the status is then failed and its details are the
    fixed text, not the error. *)
Theorem getSwapStatus_insufficient_funds (swap : Swap) :
  ((exists e, swapError swap = Str e /\ mentionsInsufficientFunds e)
   <-> detailsCode (getSwapStatus swap) = "insufficient_funds"%string)
  /\ ((exists e, swapError swap = Str e /\ mentionsInsufficientFunds e) ->
      getSwapStatus swap = statusFailed "insufficient_funds" (Str "insufficient funds")).
Proof.
  unfold mentionsInsufficientFunds.
  assert (Hother : truthy (swapError swap) = false ->
                   detailsCode (getSwapStatus swap) <> "insufficient_funds"%string).
  { intros Hf. status_cases; try congruence; discriminate. }
  assert (Hempty : ~ exists pre post,
             toLowerCase "" = (pre +:+ "insufficient funds" +:+ post)%string).
  { intros ([|c pre] & post & H); discriminate. }
  destruct (swapError swap) as [|e|] eqn:He.
  - split; [split|]; [intros (e & [=] & _) | | intros (e & [=] & _)].
    intros H. now apply Hother in H.
  - destruct e as [|c e].
    + split; [split|].
      * intros (e & [= <-] & H). contradiction.
      * intros H. now apply Hother in H.
      * intros (e & [= <-] & H). contradiction.
    + unfold getSwapStatus. rewrite He. cbn [truthy].
      destruct (includes "insufficient funds" (toLowerCase (String c e))) eqn:Hi.
      * split; [split; [reflexivity|]|reflexivity].
        intros _. exists (String c e). split; [reflexivity|]. now apply includes_append.
      * split; [split|].
        -- intros (e' & [= <-] & H). apply includes_append in H. congruence.
        -- discriminate.
        -- intros (e' & [= <-] & H). apply includes_append in H. congruence.
  - unfold getSwapStatus. rewrite He. cbn [truthy].
    split; [split|]; [intros (e & [=] & _) | discriminate | intros (e & [=] & _)].
Qed.

Lemma existsb_code (c : string) (l : list Swap) :
  existsb (String.eqb c) (List.map code (List.map getSwapStatus l)) = true
  <-> Exists (hasCode c) l.
Proof.
  rewrite List.map_map, existsb_exists, List.Exists_exists. split.
  - intros (x & Hx & Hc). apply List.in_map_iff in Hx as (swap & <- & Hs).
    apply String.eqb_eq in Hc. exists swap. split; [exact Hs | now symmetry].
  - intros (swap & Hs & Hc). exists (code (getSwapStatus swap)).
    split; [apply List.in_map_iff; eauto | apply String.eqb_eq; now symmetry].
Qed.

Lemma forallb_code (c : string) (l : list Swap) :
  forallb (fun status => String.eqb status c) (List.map code (List.map getSwapStatus l)) = true
  <-> Forall (hasCode c) l.
Proof.
  rewrite List.map_map, forallb_forall, List.Forall_forall. split.
  - intros H swap Hs. apply String.eqb_eq. apply H. apply List.in_map_iff. eauto.
  - intros H x Hx. apply List.in_map_iff in Hx as (swap & <- & Hs).
    apply String.eqb_eq. now apply H.
Qed.

(** X14: [statusAllSwaps] is null exactly for a missing or empty list.
    Otherwise it is failed when some swap has failed, pending when none has
    failed and some swap is pending, and complete when every swap is
    complete; the fall-through to the first status code never yields anything
    else. *)
Theorem statusAllSwaps_summary (swaps : option (list Swap)) :
  (statusAllSwaps swaps = None <-> swaps = None \/ swaps = Some [])
  /\ (statusAllSwaps swaps = Some "failed"%string <->
      exists l, swaps = Some l /\ Exists (hasCode "failed") l)
  /\ (statusAllSwaps swaps = Some "pending"%string <->
      exists l, swaps = Some l /\ ~ Exists (hasCode "failed") l
                /\ Exists (hasCode "pending") l)
  /\ (statusAllSwaps swaps = Some "complete"%string <->
      exists l, swaps = Some l /\ l <> [] /\ Forall (hasCode "complete") l)
  /\ (forall c, statusAllSwaps swaps = Some c ->
        c = "failed"%string \/ c = "pending"%string \/ c = "complete"%string).
Proof.
  destruct swaps as [[|swap l]|].
  - cbn [statusAllSwaps]. (split; [|split; [|split; [|split]]]); try (intros ?; discriminate).
    + split; auto.
    + split; [discriminate|]. intros (l & [= <-] & H). inversion H.
    + split; [discriminate|]. intros (l & [= <-] & _ & H). inversion H.
    + split; [discriminate|]. intros (l & [= <-] & H & _). contradiction.
  - unfold statusAllSwaps. cbv zeta.
    pose proof (existsb_code "failed" (swap :: l)) as Hf.
    pose proof (existsb_code "pending" (swap :: l)) as Hp.
    pose proof (forallb_code "complete" (swap :: l)) as Hc.
    assert (Hall : ~ Exists (hasCode "failed") (swap :: l) ->
                   ~ Exists (hasCode "pending") (swap :: l) ->
                   Forall (hasCode "complete") (swap :: l)).
    { intros Hnf Hnp. apply List.Forall_forall. intros x Hx.
      destruct (getSwapStatus_code x) as [H|[H|H]]; [| |exact H].
      - exfalso. apply Hnp. apply List.Exists_exists. eauto.
      - exfalso. apply Hnf. apply List.Exists_exists. eauto. }
    assert (Hexcl : forall a b x, a <> b -> hasCode a x -> hasCode b x -> False).
    { unfold hasCode. intros. congruence. }
    destruct (existsb (String.eqb "failed") _) eqn:Ef.
    + assert (HF : Exists (hasCode "failed") (swap :: l)) by now apply Hf.
      (split; [|split; [|split; [|split]]]).
      * split; [discriminate | intros [|]; discriminate].
      * split; [eauto | reflexivity].
      * split; [discriminate|]. intros (l' & [= <-] & Hn & _). contradiction.
      * split; [discriminate|]. intros (l' & [= <-] & _ & Hcomp). exfalso.
        apply List.Exists_exists in HF as (x & Hx & Hxf).
        rewrite List.Forall_forall in Hcomp. eapply (Hexcl _ _ x); [|exact Hxf|now apply Hcomp].
        discriminate.
      * intros c [= <-]. auto.
    + assert (HF : ~ Exists (hasCode "failed") (swap :: l)).
      { intros H. apply Hf in H. congruence. }
      destruct (existsb (String.eqb "pending") _) eqn:Ep.
      * assert (HP : Exists (hasCode "pending") (swap :: l)) by now apply Hp.
        (split; [|split; [|split; [|split]]]).
        -- split; [discriminate | intros [|]; discriminate].
        -- split; [discriminate|]. intros (l' & [= <-] & H). contradiction.
        -- split; [eauto | reflexivity].
        -- split; [discriminate|]. intros (l' & [= <-] & _ & Hcomp). exfalso.
           apply List.Exists_exists in HP as (x & Hx & Hxp).
           rewrite List.Forall_forall in Hcomp.
           eapply (Hexcl _ _ x); [|exact Hxp|now apply Hcomp]. discriminate.
        -- intros c [= <-]. auto.
      * assert (HP : ~ Exists (hasCode "pending") (swap :: l)).
        { intros H. apply Hp in H. congruence. }
        assert (HC : Forall (hasCode "complete") (swap :: l)) by now apply Hall.
        apply Hc in HC as HC'. rewrite HC'.
        (split; [|split; [|split; [|split]]]).
        -- split; [discriminate | intros [|]; discriminate].
        -- split; [discriminate|]. intros (l' & [= <-] & H). contradiction.
        -- split; [discriminate|]. intros (l' & [= <-] & _ & H). contradiction.
        -- split; [|reflexivity]. intros _. exists (swap :: l). auto.
        -- intros c [= <-]. auto.
  - cbn [statusAllSwaps]. (split; [|split; [|split; [|split]]]); try (intros ?; discriminate).
    + split; auto.
    + split; [discriminate|]. intros (l & [=] & _).
    + split; [discriminate|]. intros (l & [=] & _).
    + split; [discriminate|]. intros (l & [=] & _).
Qed.

End SwapListFacts.

(** ** More on the swundle actions *)

Section LifecycleFacts.

Import Data Swundle SwundleLifecycle.

Context {World : Type}.
Variable services : Services (World := World).

Lemma walletSendTotals_no_tx (swaps : list Swap) :
  (exists swap, In swap swaps /\ truthy (swapError swap) = false /\ tx swap = None) ->
  forall totals,
    walletSendTotals swaps totals
    = Err (ErrorObj "Cannot destructure property 'amount' of 'tx' as it is undefined.").
Proof.
  induction swaps as [|swap swaps IH]; intros (bad & Hin & Herr & Htx) totals;
    [destruct Hin|].
  cbn [walletSendTotals]. unfold addSwap.
  destruct (truthy (swapError swap)) eqn:He.
  - apply IH. exists bad. destruct Hin as [->|Hin]; [congruence | auto].
  - destruct (tx swap) as [t|] eqn:Ht; [|reflexivity].
    assert (Hrest : exists swap, In swap swaps /\ truthy (swapError swap) = false
                                 /\ tx swap = None).
    { exists bad. destruct Hin as [->|Hin]; [congruence | auto]. }
    destruct (feeAmount t); now apply IH.
Qed.

(** X15: the balance check of [initSwundle] reads the transaction of every
    swap without error.  When the market-info and deposit checks resolve with
    a swap that has neither an error nor a transaction, [initSwundle]
    dispatches INIT_FAILED with the TypeError's message right after them and
    resolves with undefined: no order is created and no transaction built. *)
Theorem initSwundle_needs_transactions (swundle : Swundle) (refreshed : list Swap)
    (st st1 : State) :
  promiseAll (fun swap => andThen (updateMarketInfo services swap)
                            (checkSufficientDeposit services))
    (swaps swundle) (after st (InitStarted (swundleId swundle))) = (st1, Ok refreshed) ->
  (exists swap, In swap refreshed /\ truthy (swapError swap) = false /\ tx swap = None) ->
  initSwundle services swundle st =
  (after st1
     (InitFailed (swundleId swundle)
        (PString "Cannot destructure property 'amount' of 'tx' as it is undefined.")),
   Ok None).
Proof.
  intros Hrefresh Hbad.
  rewrite (initSwundle_fails_on_check services swundle st st1 refreshed
             (ErrorObj "Cannot destructure property 'amount' of 'tx' as it is undefined.")
             Hrefresh); [reflexivity|].
  unfold checkSufficientBalances. cbn [swaps withSwaps].
  now rewrite (walletSendTotals_no_tx refreshed Hbad).
Qed.

Lemma plus_swap (a b c : BigNumber) : plus a (plus b c) = plus b (plus a c).
Proof. unfold plus. ring. Qed.

Lemma spent_permutation (w s : string) (l l' : list Swap) :
  Permutation (live l) (live l') -> spent w s l = spent w s l'.
Proof.
  unfold spent. generalize (live l) (live l'). clear l l'.
  induction 1 as [|x l l' _ IH|x y l|l l' l'' _ IH1 _ IH2]; cbn [fold_right].
  - reflexivity.
  - now rewrite IH.
  - apply plus_swap.
  - now rewrite IH1.
Qed.

Lemma charged_permutation (w s : string) (l l' : list Swap) :
  Permutation (live l) (live l') -> charged w s l -> charged w s l'.
Proof.
  intros Hp (swap & t & Hin & H). exists swap, t. split; [|exact H].
  eapply Permutation_in; eassumption.
Qed.

(** The check passes exactly when no charged pair is overdrawn. *)
Lemma check_passes_iff (swundle : Swundle) (st : State) :
  (forall swap, In swap (live (swaps swundle)) -> tx swap <> None) ->
  (isErr (checkSufficientBalances services swundle st) = false
   <-> forall w s, charged w s (swaps swundle) ->
         (spent w s (swaps swundle) <= balanceOf (getAllWallets services st) w s)%Qc).
Proof.
  intros Htx. split.
  - intros Hok w s Hc.
    destruct (Qclt_le_dec (balanceOf (getAllWallets services st) w s)
                (spent w s (swaps swundle))) as [Hlt|Hle]; [|exact Hle].
    destruct (check_throws services swundle st Htx) as (w' & s' & _ & _ & Herr); [eauto|].
    rewrite Herr in Hok. discriminate.
  - intros Hall. now rewrite (check_passes services swundle st Htx Hall).
Qed.

(** X16: whether [checkSufficientBalances] passes or throws depends only on
    which swaps without error the swundle holds, not on their order and not
    on the swaps that carry an error. *)
Theorem checkSufficientBalances_order_irrelevant (swundle swundle' : Swundle) (st : State) :
  Permutation (live (swaps swundle)) (live (swaps swundle')) ->
  (forall swap, In swap (live (swaps swundle)) -> tx swap <> None) ->
  isErr (checkSufficientBalances services swundle st)
  = isErr (checkSufficientBalances services swundle' st).
Proof.
  intros Hp Htx.
  assert (Htx' : forall swap, In swap (live (swaps swundle')) -> tx swap <> None).
  { intros swap Hin. apply Htx. eapply Permutation_in; [symmetry|]; eassumption. }
  pose proof (check_passes_iff swundle st Htx) as H.
  pose proof (check_passes_iff swundle' st Htx') as H'.
  destruct (isErr (checkSufficientBalances services swundle st)) eqn:E;
    destruct (isErr (checkSufficientBalances services swundle' st)) eqn:E';
    try reflexivity; exfalso.
  - assert (true = false); [|discriminate]. apply H. intros w s Hc.
    rewrite (spent_permutation w s _ _ Hp).
    apply (proj1 H' eq_refl). eapply charged_permutation; eassumption.
  - assert (true = false); [|discriminate]. apply H'. intros w s Hc.
    rewrite <- (spent_permutation w s _ _ Hp).
    apply (proj1 H eq_refl). eapply charged_permutation; [symmetry|]; eassumption.
Qed.



(** X18: every swap restored from an accepted V1 payload has a send symbol, a
    receive symbol, a positive amount to send, an order and a transaction. *)
Theorem restore_V1_swaps_well_formed (sends : list Send) :
  validateSwundleV1 (PersistedArray sends) = true ->
  Forall restoredOk (v1SwapList sends).
Proof.
  cbn [validateSwundleV1]. intros Hv.
  apply validSends_spec in Hv as (_ & _ & Hall).
  rewrite v1SwapList_flat. apply List.Forall_forall. intros swap Hin.
  apply in_flat_map in Hin as (send & Hsend & Hin).
  apply List.in_map_iff in Hin as (receive & <- & Hreceive).
  rewrite List.Forall_forall in Hall. destruct (Hall send Hsend) as [Hsym Hreceives].
  rewrite List.Forall_forall in Hreceives.
  destruct (Hreceives receive Hreceive) as (Hrs & Hunit & Horder).
  unfold restoredOk, v1Swap. cbn. repeat split; auto.
Qed.

Section CreateFacts.

Variable addSwap : Swap -> Promise (World := World) Swap.

Lemma initSwundle_resolves (swundle : Swundle) (st : State) :
  isErr (snd (initSwundle services swundle st)) = false.
Proof.
  rewrite initSwundle_run. destruct (initChain services swundle _) as [st1 [s|e]]; reflexivity.
Qed.

(** X19: [createSwundle] never rejects.  It draws the swundle id first and
    adds the swaps; when adding a swap rejects it stops there, with no
    swundle added and no initialisation started.  Otherwise it dispatches the
    swundle with the drawn id, the current time and the ids of the added
    swaps in order, and goes on with [initSwundle] on what the store then
    holds under that id. *)
Theorem createSwundle_never_rejects (newSwaps : list Swap) (st : State) :
  let id := fst (uuid services (world st)) in
  let st0 := mkState (actions st) (snd (uuid services (world st))) in
  isErr (snd (createSwundle services addSwap newSwaps st)) = false
  /\ (forall st1 e,
        promiseAll addSwap newSwaps st0 = (st1, Err e) ->
        createSwundle services addSwap newSwaps st = (st1, Ok None))
  /\ (forall st1 swaps,
        promiseAll addSwap newSwaps st0 = (st1, Ok swaps) ->
        let st2 := after st1 (SwundleAdded id (dateNow services (world st1))
                                (List.map swapId swaps)) in
        createSwundle services addSwap newSwaps st
        = match getSwundle services st2 id with
          | Some swundle => initSwundle services swundle st2
          | None => (st2, Ok None)
          end).
Proof.
  cbv zeta. unfold createSwundle, andThen, catch, newUuid, addSwundle, initStored, resolve, reject.
  destruct (uuid services (world st)) as [id w]. cbn [fst snd].
  split; [|split].
  - destruct (promiseAll addSwap newSwaps _) as [st1 [swaps|e]]; [|reflexivity].
    destruct (getSwundle services _ id) as [swundle|]; [|reflexivity].
    pose proof (initSwundle_resolves swundle
                  (after st1 (SwundleAdded id (dateNow services (world st1))
                                (List.map swapId swaps)))) as Hinit.
    destruct (initSwundle services swundle _) as [st3 [r|e]]; [reflexivity | discriminate].
  - intros st1 e ->. reflexivity.
  - intros st1 swaps ->.
    destruct (getSwundle services _ id) as [swundle|]; [|reflexivity].
    pose proof (initSwundle_resolves swundle
                  (after st1 (SwundleAdded id (dateNow services (world st1))
                                (List.map swapId swaps)))) as Hinit.
    destruct (initSwundle services swundle _) as [st3 [r|e]]; [reflexivity | discriminate].
Qed.

End CreateFacts.

End LifecycleFacts.

Section WindowFacts.

Import Data Swundle SwundleLifecycle.

Lemma clearIntervals_running (ids : list N) (w : Window) :
  let w' := fold_left (fun w a => clearInterval a w) ids w in
  intervals w' = intervals w
  /\ forall a, a ∈ running w' <-> a ∈ running w /\ ~ In a ids.
Proof.
  revert w. induction ids as [|i ids IH]; intros w; cbn.
  - split; [reflexivity|]. intros a. tauto.
  - destruct (IH (clearInterval i w)) as [Hi Hr]. split; [exact Hi|].
    intros a. rewrite Hr. cbn. rewrite elem_of_difference, elem_of_singleton.
    split; [intros [[? ?] ?] | intros [? ?]]; repeat split; auto; intuition congruence.
Qed.

Lemma clearEntries_running (entries : list (string * list N)) (w : Window) :
  let w' := fold_left (fun w entry => fold_left (fun w a => clearInterval a w) (snd entry) w)
              entries w in
  intervals w' = intervals w
  /\ forall a, a ∈ running w' <->
       a ∈ running w /\ ~ exists key ids, In (key, ids) entries /\ In a ids.
Proof.
  revert w. induction entries as [|[key ids] entries IH]; intros w; cbn.
  - split; [reflexivity|]. intros a. split; [intros H; split; [exact H|] | tauto].
    intros (? & ? & [] & _).
  - destruct (clearIntervals_running ids w) as [Hi0 Hr0].
    destruct (IH (fold_left (fun w a => clearInterval a w) ids w)) as [Hi Hr].
    split; [now rewrite Hi|].
    intros a. rewrite Hr, Hr0. split.
    + intros [[Hrun Hids] Hrest]. split; [exact Hrun|].
      intros (k & l & [[= <- <-]|Hin] & Ha); [contradiction|]. apply Hrest. eauto.
    + intros [Hrun Hnone]. split; [split; [exact Hrun|]|].
      * intros Ha. apply Hnone. exists key, ids. auto.
      * intros (k & l & Hin & Ha). apply Hnone. exists k, l. auto.
Qed.

(** X20: with a latest swundle in the store, [dismissLatestSwundle] stops
    every interval registered under [window.faast.intervals], under whatever
    key, leaves the registry and all other running intervals as they are, and
    dispatches DISMISSED with the id of the latest swundle.  Without a latest
    swundle it does nothing. *)
Theorem dismissLatestSwundle_clears_intervals
    (services : Services (World := Window)) (st : State) :
  let st' := fst (dismissLatestSwundle services st) in
  match getLatestSwundle services st with
  | Some latest =>
      actions st' = actions st ++ [SwundleDismissed (swundleId latest)]
      /\ intervals (world st') = intervals (world st)
      /\ forall a, a ∈ running (world st') <->
           a ∈ running (world st)
           /\ ~ exists key ids, In (key, ids) (intervals (world st)) /\ In a ids
  | None => st' = st
  end.
Proof.
  cbv zeta. unfold dismissLatestSwundle.
  destruct (getLatestSwundle services st) as [latest|]; [|reflexivity].
  cbn. destruct (clearEntries_running (intervals (world st)) (world st)) as [Hi Hr].
  split; [reflexivity|]. split; [exact Hi | exact Hr].
Qed.

End WindowFacts.

(** ** The properties on the concrete data *)

Import Data Swundle Examples.

Lemma buildPaymentTx_inputs_cover_outputs_and_fee_witness :
  Bitcore.sumValues (Bitcore.inputUtxos paid)
  >= Bitcore.sumAmounts (Bitcore.outputs paid) + Bitcore.fee paid.
Proof.
  apply (buildPaymentTx_inputs_cover_outputs_and_fee Bitcore.sizeFee account desired 10 false 546 paid).
  vm_compute. reflexivity.
Defined.

Lemma buildPaymentTx_send_all_witness :
  exists tx,
    Bitcore.buildPaymentTx Bitcore.sizeFee drained desired 10 false 546 = Ok tx
    /\ Bitcore.outputs tx = [Bitcore.mkOutput "mDeposit" 47740]
    /\ Bitcore.fee tx = 2260
    /\ Bitcore.inputUtxos tx = Bitcore.utxos drained.
Proof.
  destruct (buildPaymentTx_send_all Bitcore.sizeFee drained desired 10 false 546)
    as (_ & _ & H); [vm_compute; reflexivity|].
  destruct (H eq_refl (Bitcore.mkOutput "mDeposit" 50000) [] eq_refl) as (_ & _ & Hok).
  apply Hok. vm_compute. reflexivity.
Defined.

Lemma buildPaymentTx_change_or_fold_witness :
  Bitcore.change paid = 47740
  /\ Bitcore.changeAddress paid = Some "mChange2"%string
  /\ Bitcore.changePath paid = Some [1%nat; 2%nat].
Proof.
  destruct (buildPaymentTx_change_or_fold Bitcore.sizeFee account desired 10 false 546 paid)
    as (H & _ & _); [vm_compute; reflexivity|].
  destruct H as (_ & Hc & _ & Ha & Hp); [vm_compute; reflexivity|].
  split; [exact Hc | split; [exact Ha | exact Hp]].
Defined.

Lemma getSwapStatus_pure_first_match_witness :
  SwapStatus.code (SwapStatus.getSwapStatus (quoted "s1" (Q2Qc (1 # 30))))
  = SwapStatus.code (SwapStatus.getSwapStatus (quoted "s2" (Q2Qc (1 # 40)))).
Proof.
  destruct getSwapStatus_pure_first_match as (_ & H & _).
  apply (H (quoted "s1" (Q2Qc (1 # 30))) (quoted "s2" (Q2Qc (1 # 40)))).
  repeat split; discriminate.
Defined.





Lemma synthetic_swundle_created_date_witness :
  restoreSwundles services v2Payload start =
  restoreLatestSwundlePolling services
    (mkState [SwapsRestored [stored "s1" 200; stored "s2" 100];
              SwundleAdded "1b9d6bcd-bbfd-4b2d" 200 [Some "s1"%string; Some "s2"%string]] tt).
Proof.
  apply (synthetic_swundle_created_date services v2Payload start
           (after start (SwapsRestored [stored "s1" 200; stored "s2" 100]))
           (Some [stored "s1" 200; stored "s2" 100]) false).
  reflexivity.
Defined.

(** C8 as worded fails on the code: the first restored swap's order was
    created at 200, the second's at 100, and the swundle gets 200. *)
Lemma created_date_not_earliest :
  restoredSwapLists (actions (fst (restoreSwundles services v2Payload start)))
  = [[stored "s1" 200; stored "s2" 100]]
  /\ earliestCreated [stored "s1" 200; stored "s2" 100] = Some 100%N
  /\ addedDates (actions (fst (restoreSwundles services v2Payload start))) = [200%N]
  /\ addedDates (actions (fst (restoreSwundles services v2Payload start)))
     <> [default (dateNow services tt) (earliestCreated [stored "s1" 200; stored "s2" 100])].
Proof.
  repeat split; try (vm_compute; reflexivity).
  vm_compute. discriminate.
Qed.




(** ** The further properties on the concrete data *)

Import SwundleLifecycle Cases.

Lemma buildPaymentTx_shortest_prefix_witness :
  Bitcore.inputUtxos consolidated = firstn 2 (Bitcore.sortUtxos (Bitcore.utxos savings))
  /\ Bitcore.sumValues (firstn 1 (Bitcore.sortUtxos (Bitcore.utxos savings)))
     < 95000 + Bitcore.sizeFee 10 1 2 false.
Proof.
  destruct (buildPaymentTx_shortest_prefix Bitcore.sizeFee savings payment 10 false 546
              consolidated) as (Hin & Hshort & _); [vm_compute; reflexivity|].
  split; [exact Hin|]. apply (Hshort 1%nat). simpl. lia.
Defined.

Lemma buildPaymentTx_conserves_value_witness :
  BitcoreService.scriptTotal (Bitcore.outputScript paid) + Bitcore.fee paid
  = Bitcore.sumValues (Bitcore.inputUtxos paid)
  /\ Bitcore.sizeFee 10 1 2 false <= Bitcore.fee paid <= Bitcore.sizeFee 10 1 2 false + 546.
Proof.
  destruct (buildPaymentTx_conserves_value Bitcore.sizeFee account desired 10 false 546 paid)
    as [Hsum Hfee]; [vm_compute; reflexivity|].
  split; [exact Hsum|]. apply Hfee; [discriminate | lia].
Defined.

Lemma buildPaymentTx_insufficient_funds_witness :
  Bitcore.buildPaymentTx Bitcore.sizeFee account tooMuch 10 false 546
  = Err Bitcore.NotEnoughUtxos.
Proof.
  apply (buildPaymentTx_insufficient_funds Bitcore.sizeFee account tooMuch 10 false 546).
  - intros n m. unfold Bitcore.sizeFee. lia.
  - repeat constructor. simpl. lia.
  - vm_compute. reflexivity.
Defined.

Lemma buildPaymentTx_outputs_kept_witness :
  Bitcore.outputs swept = desired
  \/ (Permutation (Bitcore.inputUtxos swept) (Bitcore.utxos drained)
      /\ Bitcore.sumAmounts desired = Bitcore.sumValues (Bitcore.utxos drained)
      /\ Bitcore.change swept = 0
      /\ exists o rest,
           desired = o :: rest
           /\ Bitcore.outputs swept
              = Bitcore.mkOutput (Bitcore.address o) (Bitcore.amount o - Bitcore.fee swept)
                  :: rest).
Proof.
  apply (buildPaymentTx_outputs_kept Bitcore.sizeFee drained desired 10 false 546 swept).
  vm_compute. reflexivity.
Defined.

Lemma getBitcore_caches_witness :
  exists found,
    (BitcoreService.getBitcore unit (fun _ => tt) "BTC"
       (BitcoreService.emptyRegistry unit)).2 = Ok found
    /\ BitcoreService.getBitcore unit (fun _ => tt) "BTC"
         (BitcoreService.getBitcore unit (fun _ => tt) "BTC"
            (BitcoreService.emptyRegistry unit)).1
       = ((BitcoreService.getBitcore unit (fun _ => tt) "BTC"
             (BitcoreService.emptyRegistry unit)).1, Ok found).
Proof.
  destruct (getBitcore_caches unit (fun _ => tt) "BTC" (BitcoreService.emptyRegistry unit))
    as (_ & _ & H).
  eexists. split; [reflexivity|].
  apply H. reflexivity.
Defined.

Lemma createTransaction_rejections_witness :
  exists e, forall web3 options,
    Ethereum._createTransaction helpers web3 "0xAbC1" "0xdep" (Q2Qc 1) bitcoin options = Err e.
Proof.
  apply (createTransaction_rejections helpers "0xAbC1" "0xdep" (Q2Qc 1) bitcoin).
  reflexivity.
Defined.

Lemma createTransaction_explicit_options_witness :
  exists t d,
    (forall web3 previous,
        Ethereum._createTransaction helpers web3 "0xAbC1" "0xdep" (Q2Qc 1) ether
          (Ethereum.mkTxOptions previous (Some 5%N) (Some 2000000000%N) (Some 21000%N) None)
        = Ok t)
    /\ txData t = Some d
    /\ gasPrice d = 2000000000%N /\ gas d = 21000%N /\ nonce d = 5%N
    /\ feeAmount t = Some (Ethereum.toTxFee helpers 21000 2000000000).
Proof.
  destruct (createTransaction_explicit_options helpers "0xAbC1" "0xdep" (Q2Qc 1) ether priced)
    as [H _].
  apply (H 2000000000%N 21000%N 5%N); try reflexivity; discriminate.
Defined.


Lemma getAllBalances_keeps_positive_and_ETH_witness :
  isErr (EthereumWallet.getAllBalances node "0xAbC1" [ether; token]) = false.
Proof.
  destruct (getAllBalances_keeps_positive_and_ETH node "0xAbC1" [ether; token])
    as (H & _ & _).
  apply H. intros asset [<-|[<-|[]]]; reflexivity.
Defined.

Lemma getSwapStatus_complete_iff_witness :
  SwapStatus.code (SwapStatus.getSwapStatus completed) = "complete"%string.
Proof.
  destruct (getSwapStatus_complete_iff completed) as [_ H].
  apply H. split; [reflexivity|]. eexists. repeat split; reflexivity.
Defined.

Lemma getSwapStatus_insufficient_funds_witness :
  SwapStatus.getSwapStatus broke
  = SwapStatus.statusFailed "insufficient_funds" (Str "insufficient funds").
Proof.
  destruct (getSwapStatus_insufficient_funds broke) as [_ H].
  apply H. eexists. split; [reflexivity|].
  exists EmptyString, " for gas * price + value"%string. reflexivity.
Defined.

Lemma statusAllSwaps_summary_witness :
  SwapList.statusAllSwaps (Some [completed; broke]) = Some "failed"%string.
Proof.
  destruct (statusAllSwaps_summary (Some [completed; broke])) as (_ & H & _).
  apply H. eexists. split; [reflexivity|].
  apply Exists_cons_tl, Exists_cons_hd. reflexivity.
Defined.

Lemma initSwundle_needs_transactions_witness :
  initSwundle services unsignable start
  = (after (after start (InitStarted "sw-3"))
       (InitFailed "sw-3"
          (PString "Cannot destructure property 'amount' of 'tx' as it is undefined.")),
     Ok None).
Proof.
  apply (initSwundle_needs_transactions services unsignable (swaps unsignable) start
           (after start (InitStarted "sw-3"))).
  - reflexivity.
  - eexists. split; [left; reflexivity|]. split; reflexivity.
Defined.

Lemma checkSufficientBalances_order_irrelevant_witness :
  isErr (checkSufficientBalances services overdrawn start)
  = isErr (checkSufficientBalances services swapped start).
Proof.
  apply (checkSufficientBalances_order_irrelevant services overdrawn swapped start).
  - apply perm_swap.
  - intros swap [<-|[<-|[]]]; discriminate.
Defined.

Lemma restore_V1_swaps_well_formed_witness :
  Forall restoredOk (v1SwapList v1Sends).
Proof.
  apply restore_V1_swaps_well_formed. vm_compute. reflexivity.
Defined.

Lemma createSwundle_never_rejects_witness :
  createSwundle services keep [first] start
  = (after start (SwundleAdded "1b9d6bcd-bbfd-4b2d" 1541030400000 [Some "s1"%string]),
     Ok None).
Proof.
  destruct (createSwundle_never_rejects services keep [first] start) as (_ & _ & H).
  apply (H start [first]). reflexivity.
Defined.

Lemma dismissLatestSwundle_clears_intervals_witness :
  9%N ∈ running (world (fst (dismissLatestSwundle browser (mkState [] window))))
  /\ 1%N ∉ running (world (fst (dismissLatestSwundle browser (mkState [] window)))).
Proof.
  destruct (dismissLatestSwundle_clears_intervals browser (mkState [] window))
    as (_ & _ & H).
  split.
  - apply H. split; [set_solver|].
    intros (key & ids & [[= <- <-]|[[= <- <-]|[]]] & Hin); simpl in Hin;
      intuition discriminate.
  - intros Hin. apply H in Hin as [_ Hnone]. apply Hnone.
    exists "swap"%string, [1%N; 2%N]. split; left; reflexivity.
Defined.
